(** * Recipe gateway (api/recipe.js): a shallow embedding and its properties

    The JavaScript module keeps two process-wide maps (the recipe cache and
    the rate-limit table), validates a submitted URL, fetches the page,
    discovers JSON-LD blocks with a regular expression, resolves the Recipe
    object, normalises its fields and strips unsafe markup with four
    regular-expression replacements.

    Modelling choices:
    - a JavaScript string is the list of its UTF-16 code units ([N]);
    - regular expressions are abstract syntax run by a backtracking matcher
      that follows the ECMAScript matcher (ordered alternation, greedy and lazy
      quantifiers, continuation passing);
    - [Date.now()] is an explicit argument, the two maps are explicit state;
    - the platform's [URL] and [JSON.parse] are parameters of a section;
    - a [TypeError] is the [Throw] constructor of a result type. *)

From Stdlib Require Import ZArith NArith Lia String Ascii Bool.
From Stdlib Require Import Floats.SpecFloat.
From stdpp Require Import base option list gmap.

Local Open Scope nat_scope.
Set Warnings "-register-all".

(** ** JavaScript strings *)

Abbreviation jstring := (list N).

Definition js (s : string) : jstring :=
  List.map (fun a => N.of_nat (nat_of_ascii a)) (list_ascii_of_string s).

Definition jstring_eqb (a b : jstring) : bool := bool_decide (a = b).

(** [WhiteSpace] and [LineTerminator] of ECMAScript: what [\s] and
    [String.prototype.trim] recognise. *)
Definition is_space (c : N) : bool :=
  ((9 <=? c) && (c <=? 13) || (c =? 32) || (c =? 160) || (c =? 5760)
   || (8192 <=? c) && (c <=? 8202) || (c =? 8232) || (c =? 8233)
   || (c =? 8239) || (c =? 8287) || (c =? 12288) || (c =? 65279))%N.

Definition is_digit (c : N) : bool := ((48 <=? c) && (c <=? 57))%N.
Definition is_upper (c : N) : bool := ((65 <=? c) && (c <=? 90))%N.
Definition is_lower (c : N) : bool := ((97 <=? c) && (c <=? 122))%N.

(** [\w]: ASCII letters, digits and the underscore. *)
Definition is_word (c : N) : bool :=
  is_upper c || is_lower c || is_digit c || (c =? 95)%N.

(** [Canonicalize] of a pattern character under the [i] flag without the [u]
    flag: upper-casing, never mapping a code unit above 127 into ASCII.  The
    patterns of this program only have ASCII literals, for which two code units
    agree iff their ASCII upper-casings agree. *)
Definition canon (c : N) : N := if is_lower c then (c - 32)%N else c.

(** [String.prototype.toLowerCase] on ASCII: the program applies it to the
    host names returned by [URL], which are ASCII (a domain is returned in its
    ASCII form, any other host percent-encoded). *)
Definition lower_char (c : N) : N := if is_upper c then (c + 32)%N else c.
Definition toLowerCase (s : jstring) : jstring := List.map lower_char s.

(** [String.prototype.trim]. *)
Fixpoint trimStart (s : jstring) : jstring :=
  match s with
  | c :: r => if is_space c then trimStart r else s
  | [] => []
  end.
Definition trim (s : jstring) : jstring := rev (trimStart (rev (trimStart s))).

(** ** Regular expressions *)

Inductive regex : Type :=
| Eps                                   (* the empty pattern *)
| Lit (c : N)                           (* a pattern character *)
| Cls (p : N -> bool)                   (* a class or class escape *)
| Seq (a b : regex)
| Alt (a b : regex)                     (* a|b, left first *)
| Rep (min : nat) (max : option nat) (greedy : bool) (a : regex)
| Grp (n : nat) (a : regex)             (* capturing group number n *)
| Bol                                   (* ^ *)
| Eol                                   (* $ *)
| WordB.                                (* \b *)

(** Captures: the latest span recorded for a group comes first. *)
Abbreviation caps := (list (nat * (nat * nat))).
Abbreviation mres := (option (nat * caps)).

Fixpoint cap_lookup (n : nat) (cs : caps) : option (nat * nat) :=
  match cs with
  | [] => None
  | (k, sp) :: r => if Nat.eqb k n then Some sp else cap_lookup n r
  end.

Definition substring (s : jstring) (i j : nat) : jstring := take (j - i) (drop i s).

(** The text of group [n], empty when the group took no part in the match. *)
Definition group_text (s : jstring) (cs : caps) (n : nat) : jstring :=
  match cap_lookup n cs with
  | Some (a, b) => substring s a b
  | None => []
  end.

Section Matcher.
Variable icase : bool.
Variable s : jstring.

Definition char_eq (c x : N) : bool :=
  if icase then (canon c =? canon x)%N else (c =? x)%N.

Definition word_at (i : nat) : bool :=
  match s !! i with Some c => is_word c | None => false end.

Definition word_before (i : nat) : bool :=
  match i with O => false | S j => word_at j end.

Definition dec_max (mx : option nat) : option nat :=
  match mx with Some n => Some (Nat.pred n) | None => None end.

(** [RepeatMatcher] for a sub-pattern whose matcher is [ma] and the
    continuation [k]: an iteration that must still be made ([min > 0]) is made;
    otherwise a greedy quantifier tries one more iteration before the
    continuation and a lazy one the continuation first; once the minimum is
    exhausted an iteration that consumed nothing is rejected.  The fuel bounds
    the nesting of iterations: [min] plus the characters left plus one. *)
Fixpoint rep_loop (ma : nat -> caps -> (nat -> caps -> mres) -> mres)
         (k : nat -> caps -> mres) (g : bool)
         (fuel mn : nat) (mx : option nat) (i : nat) (cs : caps) : mres :=
  match fuel with
  | O => None
  | S fuel' =>
      match mx with
      | Some O => k i cs
      | _ =>
          let d := fun j cs' =>
            if Nat.eqb mn 0 && Nat.eqb j i then None
            else rep_loop ma k g fuel' (Nat.pred mn) (dec_max mx) j cs' in
          match mn with
          | S _ => ma i cs d
          | O =>
              if g then
                match ma i cs d with
                | Some res => Some res
                | None => k i cs
                end
              else
                match k i cs with
                | Some res => Some res
                | None => ma i cs d
                end
          end
      end
  end.

(** The matcher of a pattern: [rmatch r i cs k] matches [r] at position [i]
    with captures [cs] and hands the end position to the continuation [k];
    [None] is failure, which makes the caller try its next choice. *)
Fixpoint rmatch (r : regex) (i : nat) (cs : caps)
         (k : nat -> caps -> mres) {struct r} : mres :=
  match r with
  | Eps => k i cs
  | Lit c =>
      match s !! i with
      | Some x => if char_eq c x then k (S i) cs else None
      | None => None
      end
  | Cls p =>
      match s !! i with
      | Some x => if p x then k (S i) cs else None
      | None => None
      end
  | Seq a b => rmatch a i cs (fun j cs' => rmatch b j cs' k)
  | Alt a b =>
      match rmatch a i cs k with
      | Some res => Some res
      | None => rmatch b i cs k
      end
  | Grp n a => rmatch a i cs (fun j cs' => k j ((n, (i, j)) :: cs'))
  | Bol => if Nat.eqb i 0 then k i cs else None
  | Eol => if Nat.eqb i (length s) then k i cs else None
  | WordB => if xorb (word_before i) (word_at i) then k i cs else None
  | Rep mn mx g a =>
      rep_loop (rmatch a) k g (mn + (length s - i) + 1) mn mx i cs
  end.

Variable r : regex.

(** One attempt at position [i]. *)
Definition match_at (i : nat) : mres :=
  rmatch r i [] (fun j cs => Some (j, cs)).

(** [RegExpBuiltinExec] without the sticky flag: the first position at or
    after [lastIndex] where the pattern matches. *)
Fixpoint search (fuel i : nat) : option (nat * nat * caps) :=
  match fuel with
  | O => None
  | S fuel' =>
      match match_at i with
      | Some (j, cs) => Some (i, j, cs)
      | None => search fuel' (S i)
      end
  end.

Definition exec (lastIndex : nat) : option (nat * nat * caps) :=
search (length s + 1 - lastIndex) lastIndex.
End Matcher.

(** Replacement templates: text and [$n]. *)
Inductive ritem : Type := RText (t : jstring) | RGroup (n : nat).

Definition expand (s : jstring) (cs : caps) (tpl : list ritem) : jstring :=
  List.concat (List.map (fun it =>
    match it with
    | RText t => t
    | RGroup n => group_text s cs n
    end) tpl).

(** [String.prototype.replace] with a global pattern: every match found from
    the running [lastIndex] is replaced; an empty match advances the index by
    one. *)
Fixpoint replace_loop (icase : bool) (r : regex) (tpl : list ritem)
         (s : jstring) (fuel last src : nat) : jstring :=
  match fuel with
  | O => drop src s
  | S fuel' =>
      match exec icase s r last with
      | None => drop src s
      | Some (i, j, cs) =>
          substring s src i ++ expand s cs tpl
            ++ replace_loop icase r tpl s fuel' (if Nat.eqb j i then S j else j) j
      end
  end.

Definition replace_all (icase : bool) (r : regex) (tpl : list ritem)
           (s : jstring) : jstring :=
  replace_loop icase r tpl s (length s + 2) 0 0.

(** [String.prototype.replace] with a pattern that has no [g] flag: the first
    match only. *)
Definition replace_first (icase : bool) (r : regex) (tpl : list ritem)
           (s : jstring) : jstring :=
  match exec icase s r 0 with
  | None => s
  | Some (i, j, cs) => take i s ++ expand s cs tpl ++ drop j s
  end.

(** Pattern notation helpers. *)
Definition chr (a : ascii) : N := N.of_nat (nat_of_ascii a).
Definition lit (a : ascii) : regex := Lit (chr a).

Fixpoint word (w : jstring) : regex :=
  match w with
  | [] => Eps
  | [c] => Lit c
  | c :: r => Seq (Lit c) (word r)
  end.

Fixpoint seqs (l : list regex) : regex :=
  match l with
  | [] => Eps
  | [a] => a
  | a :: r => Seq a (seqs r)
  end.

Fixpoint alts (l : list regex) : regex :=
  match l with
  | [] => Eps
  | [a] => a
  | a :: r => Alt a (alts r)
  end.

Definition star (a : regex) : regex := Rep 0 None true a.
Definition star_lazy (a : regex) : regex := Rep 0 None false a.
Definition plus (a : regex) : regex := Rep 1 None true a.
Definition opt (a : regex) : regex := Rep 0 (Some 1) true a.

Definition ws : regex := Cls is_space.                   (* \s *)
Definition wchar : regex := Cls is_word.                 (* \w *)
Definition digit : regex := Cls is_digit.                (* \d *)
Definition any : regex := Cls (fun _ => true).           (* [\s\S] *)
Definition not_code (x : N) : regex :=                   (* [^x] *)
  Cls (fun c => negb (c =? x)%N).
Definition not_chr (a : ascii) : regex := not_code (chr a).
Definition dquote : N := 34%N.

(** ** HTML sanitisation *)

(** /<\s*\/?\s*(script|iframe|object|embed|form|link|style|base|meta|svg)\b[^>]*>/gi *)
Definition re_tag : regex :=
  seqs [ lit "<"; star ws; opt (lit "/"); star ws;
         Grp 1 (alts (List.map (fun w => word (js w))
           ["script"; "iframe"; "object"; "embed"; "form"; "link"; "style";
            "base"; "meta"; "svg"]%string));
         WordB; star (not_chr ">"); lit ">" ].

(** /\s+on\w+\s*=\s*(?: \x22[^\x22]*\x22 | '[^']*' | [^\s>]* )/gi, with the
    double quote written \x22 and blanks added inside the group. *)
Definition re_handler : regex :=
  seqs [ plus ws; word (js "on"); plus wchar; star ws; lit "="; star ws;
         alts [ seqs [ Lit dquote; star (not_code dquote); Lit dquote ];
                seqs [ lit "'"; star (not_chr "'"); lit "'" ];
                star (Cls (fun c => negb (is_space c || (c =? chr ">")%N))) ] ].

(** /(href|src|action)\s*=\s*[\x22']?\s*(javascript|data|vbscript)\s*:/gi,
    replaced by $1=\x22. *)
Definition re_scheme : regex :=
  seqs [ Grp 1 (alts [ word (js "href"); word (js "src"); word (js "action") ]);
         star ws; lit "="; star ws;
         opt (Cls (fun c => (c =? dquote)%N || (c =? chr "'")%N));
         star ws;
         Grp 2 (alts [ word (js "javascript"); word (js "data");
                       word (js "vbscript") ]);
         star ws; lit ":" ].

(** /<script\b[^>]*>[\s\S]*?<\/script>/gi *)
Definition re_script_block : regex :=
  seqs [ word (js "<script"); WordB; star (not_chr ">"); lit ">";
         star_lazy any; word (js "</script>") ].

(** [sanitizeText] on a string. *)
Definition sanitizeString (str : jstring) : jstring :=
  replace_all true re_script_block []
    (replace_all true re_scheme [RGroup 1; RText [chr "="; dquote]]
      (replace_all true re_handler []
        (replace_all true re_tag [] str))).

(** ** JavaScript values *)

(** The values [JSON.parse] builds, and [undefined], which property access and
    [Array.prototype.find] add.  A number is an IEEE 754 double.  An object
    lists its own properties, keys distinct. *)
Inductive value : Type :=
| VUndef
| VNull
| VBool (b : bool)
| VNum (x : spec_float)
| VStr (s : jstring)
| VArr (items : list value)
| VObj (fields : list (jstring * value)).

(** [ToBoolean]. *)
Definition truthy (v : value) : bool :=
  match v with
  | VUndef | VNull => false
  | VBool b => b
  | VNum (S754_zero _) | VNum S754_nan => false
  | VNum _ => true
  | VStr s => negb (jstring_eqb s [])
  | VArr _ | VObj _ => true
  end.

Definition isArray (v : value) : bool :=
  match v with VArr _ => true | _ => false end.

Definition isString (v : value) : bool :=      (* typeof v === 'string' *)
  match v with VStr _ => true | _ => false end.

(** [a || b]. *)
Definition or_else (a b : value) : value := if truthy a then a else b.

(** A computation that may raise a [TypeError]. *)
Inductive res (A : Type) : Type :=
| Ok (a : A)
| Throw.
Arguments Ok {A} a.
Arguments Throw {A}.

Definition bind {A B : Type} (x : res A) (f : A -> res B) : res B :=
  match x with Ok a => f a | Throw => Throw end.

Notation "'let*' x ':=' c 'in' k" := (bind c (fun x => k))
  (at level 10, x name, c at level 100, k at level 200).

Fixpoint mapM {A B : Type} (f : A -> res B) (l : list A) : res (list B) :=
  match l with
  | [] => Ok []
  | x :: r => let* y := f x in let* ys := mapM f r in Ok (y :: ys)
  end.

Fixpoint field (k : jstring) (fs : list (jstring * value)) : value :=
  match fs with
  | [] => VUndef
  | (k', v) :: r => if jstring_eqb k' k then v else field k r
  end.

(** Property read [v[k]] for the keys this program reads ([@type], [@graph],
    [name], [text], [url], ...), none of which a prototype defines: an own
    property of an object, [undefined] on any other value, a [TypeError] on
    [null] and [undefined]. *)
Definition get (v : value) (k : string) : res value :=
  match v with
  | VUndef | VNull => Throw
  | VObj fs => Ok (field (js k) fs)
  | _ => Ok VUndef
  end.

(** ** Recipe cache *)

Record Recipe : Type := mkRecipe {
  name : value;
  description : value;
  ingredients : list value;
  instructions : list value;
  servings : value;
  prepTime : value;
  cookTime : value;
  image : value
}.

Record CacheEntry : Type := mkEntry { data : Recipe; timestamp : Z }.

(** A JavaScript [Map] whose iteration order matters: the entries in insertion
    order, keys distinct. *)
Section JSMap.
Context {V : Type}.

Fixpoint map_get (k : jstring) (m : list (jstring * V)) : option V :=
  match m with
  | [] => None
  | (k', v) :: r => if jstring_eqb k' k then Some v else map_get k r
  end.

Fixpoint map_delete (k : jstring) (m : list (jstring * V)) : list (jstring * V) :=
  match m with
  | [] => []
  | (k', v) :: r => if jstring_eqb k' k then r else (k', v) :: map_delete k r
  end.

(** [set] keeps the place of a key that is present and appends a new one. *)
Fixpoint map_set (k : jstring) (v : V) (m : list (jstring * V)) : list (jstring * V) :=
  match m with
  | [] => [(k, v)]
  | (k', v') :: r =>
      if jstring_eqb k' k then (k', v) :: r else (k', v') :: map_set k v r
  end.

Definition map_keys (m : list (jstring * V)) : list jstring := List.map fst m.
End JSMap.

Abbreviation Cache := (list (jstring * CacheEntry)).

Definition CACHE_TTL_MS : Z := 60 * 60 * 1000.
Definition CACHE_MAX_ENTRIES : nat := 200.

Definition getCached (url : jstring) (now : Z) (recipeCache : Cache)
  : option Recipe * Cache :=
  match map_get url recipeCache with
  | None => (None, recipeCache)
  | Some entry =>
      if (now - timestamp entry >? CACHE_TTL_MS)%Z
      then (None, map_delete url recipeCache)
      else (Some (data entry), recipeCache)
  end.

Definition setCache (url : jstring) (d : Recipe) (now : Z) (recipeCache : Cache)
  : Cache :=
  let c :=
    if CACHE_MAX_ENTRIES <=? length recipeCache then
      match map_keys recipeCache with
      | oldest :: _ => map_delete oldest recipeCache
      | [] => recipeCache
      end
    else recipeCache in
  map_set url (mkEntry d now) c.

(** ** Rate limiting *)

Definition RATE_LIMIT_WINDOW_MS : Z := 60 * 1000.
Definition RATE_LIMIT_MAX : nat := 10.

(** The table maps a client to its [timestamps]. *)
Abbreviation RateMap := (gmap (list N) (list Z)).

Definition in_window (now t : Z) : bool := (now - t <? RATE_LIMIT_WINDOW_MS)%Z.

Definition checkRateLimit (ip : jstring) (now : Z) (rateLimitMap : RateMap)
  : bool * RateMap :=
  match rateLimitMap !! ip with
  | None => (true, <[ip := [now]]> rateLimitMap)
  | Some timestamps =>
      let kept := List.filter (in_window now) timestamps in
      if RATE_LIMIT_MAX <=? length kept
      then (false, <[ip := kept]> rateLimitMap)
      else (true, <[ip := kept ++ [now]]> rateLimitMap)
  end.

(** ** Domain allowlist and SSRF protection *)

Definition ALLOWED_DOMAINS : list jstring :=
  List.map js
    [ "recipetineats.com"; "budgetbytes.com"; "allrecipes.com"; "foodnetwork.com";
      "simplyrecipes.com"; "bonappetit.com"; "seriouseats.com"; "tasty.co";
      "delish.com"; "epicurious.com"; "cookieandkate.com"; "minimalistbaker.com";
      "halfbakedharvest.com"; "damndelicious.net"; "pinchofyum.com";
      "smittenkitchen.com"; "loveandlemons.com"; "thepioneerwoman.com";
      "food52.com"; "eatingwell.com"; "skinnytaste.com"; "hellofresh.com";
      "bbcgoodfood.com"; "jamieoliver.com"; "nigella.com";
      "themodernproper.com" ]%string.

Definition set_has (x : jstring) (l : list jstring) : bool :=
  existsb (jstring_eqb x) l.

(** The fields of a [URL] object the program reads. *)
Record URL : Type := mkURL {
  protocol : jstring;
  username : jstring;
  password : jstring;
  hostname : jstring
}.

(** /^www\./ *)
Definition re_www : regex := seqs [ Bol; word (js "www"); lit "." ].

(** /^(\d{1,3})\.(\d{1,3})\.(\d{1,3})\.(\d{1,3})$/ *)
Definition octet : regex := Rep 1 (Some 3) true digit.
Definition re_ipv4 : regex :=
  seqs [ Bol; Grp 1 octet; lit "."; Grp 2 octet; lit "."; Grp 3 octet; lit ".";
         Grp 4 octet; Eol ].

(** [Number] on a string of decimal digits. *)
Definition digits_value (ds : jstring) : N :=
  fold_left (fun acc c => (10 * acc + (c - 48))%N) ds 0%N.

Section Validators.
(** [new URL(s)]: [None] when the constructor throws. *)
Variable URL_parse : jstring -> option URL.

Definition isDomainAllowed (urlString : jstring) : bool :=
  match URL_parse urlString with
  | None => false
  | Some parsed =>
      let hostname := replace_first false re_www [] (toLowerCase (hostname parsed)) in
      set_has hostname ALLOWED_DOMAINS
  end.

Definition isUrlSafe (urlString : jstring) : bool :=
  match URL_parse urlString with
  | None => false
  | Some parsed =>
      if negb (jstring_eqb (protocol parsed) (js "https:")) then false
      else if negb (jstring_eqb (username parsed) [])
              || negb (jstring_eqb (password parsed) []) then false
      else
        let hostname := toLowerCase (hostname parsed) in
        if jstring_eqb hostname (js "localhost")
           || jstring_eqb hostname (js "0.0.0.0")
           || jstring_eqb hostname (js "[::1]") then false
        else
          let private :=
            match exec false hostname re_ipv4 0 with
            | Some (_, _, cs) =>
                let a := digits_value (group_text hostname cs 1) in
                let b := digits_value (group_text hostname cs 2) in
                ((a =? 127) || (a =? 10)
                 || (a =? 172) && (16 <=? b) && (b <=? 31)
                 || (a =? 192) && (b =? 168)
                 || (a =? 169) && (b =? 254)
                 || (a =? 0))%N
            | None => false
            end in
          if private then false
          else if jstring_eqb hostname (js "metadata.google.internal")
                  || jstring_eqb hostname (js "metadata.google.com") then false
          else true
  end.
End Validators.

(** ** Sanitising a recipe *)

Definition sanitizeText (v : value) : value :=
  match v with
  | VStr str => VStr (sanitizeString str)
  | _ => v
  end.

(** [instructions] and [ingredients] of the object the handler builds are
    always arrays, so both [Array.isArray] tests succeed. *)
Definition sanitizeRecipe (recipe : Recipe) : Recipe :=
  {| name := if truthy (name recipe) then sanitizeText (name recipe) else name recipe;
     description := if truthy (description recipe)
                    then sanitizeText (description recipe) else description recipe;
     ingredients := List.map sanitizeText (ingredients recipe);
     instructions := List.map sanitizeText (instructions recipe);
     servings := servings recipe;
     prepTime := prepTime recipe;
     cookTime := cookTime recipe;
     image := image recipe |}.

(** ** JSON-LD discovery and Recipe resolution *)

Definition quote : regex := Cls (fun c => (c =? dquote)%N || (c =? chr "'")%N).

(** /<script[^>]*type=[\x22']application\/ld\+json[\x22'][^>]*>([\s\S]*?)<\/script>/gi *)
Definition jsonLdRegex : regex :=
  seqs [ word (js "<script"); star (not_chr ">"); word (js "type="); quote;
         word (js "application/ld+json"); quote; star (not_chr ">"); lit ">";
         Grp 1 (star_lazy any); word (js "</script>") ].

(** [v['@type'] === 'Recipe']. *)
Definition isRecipe (v : value) : res bool :=
  let* t := get v "@type" in
  Ok (match t with VStr s => jstring_eqb s (js "Recipe") | _ => false end).

(** [items.find(item => item['@type'] === 'Recipe')]. *)
Fixpoint find_Recipe (items : list value) : res value :=
  match items with
  | [] => Ok VUndef
  | item :: rest =>
      let* b := isRecipe item in
      if b then Ok item else find_Recipe rest
  end.

(** The [for ... of] loop over [matches]; [recipe] is the loop's variable and
    the result is its value when the loop ends. *)
Fixpoint findRecipe (recipe : value) (matches : list value) : res value :=
  match matches with
  | [] => Ok recipe
  | data :: rest =>
      let* direct := isRecipe data in
      if direct then Ok data
      else
        let* r1 := match data with VArr items => find_Recipe items | _ => Ok recipe end in
        if isArray data && truthy r1 then Ok r1
        else
          let* g := get data "@graph" in
          match g with
          | VArr items =>
              let* r2 := find_Recipe items in
              if truthy r2 then Ok r2 else findRecipe r2 rest
          | _ => findRecipe r1 rest
          end
  end.

(** ** Field extraction *)

Definition extractIngredients (recipe : value) : res (list value) :=
  let* ri := get recipe "recipeIngredient" in
  match or_else ri (VArr []) with
  | VArr items =>
      Ok (List.map (fun i => match i with VStr s => VStr (trim s) | _ => VStr [] end) items)
  | _ => Throw                               (* .map is not a function *)
  end.

Definition stepText (step : value) : res value :=
  match step with
  | VStr _ => Ok step
  | _ =>
      let* t := get step "text" in
      if truthy t then Ok t
      else let* n := get step "name" in if truthy n then Ok n else Ok (VStr [])
  end.

Definition extractInstructions (recipe : value) : res (list value) :=
  let* ri := get recipe "recipeInstructions" in
  if truthy ri then
    match ri with
    | VArr steps => let* l := mapM stepText steps in Ok (List.filter truthy l)
    | VStr _ => Ok [ri]
    | _ => Ok []
    end
  else Ok [].

Definition extractImage (recipe : value) : res value :=
  let* img := get recipe "image" in
  if truthy img then
    match img with
    | VStr _ => Ok img
    | VArr items => Ok (match items with x :: _ => x | [] => VUndef end)
    | _ => let* u := get img "url" in Ok (if truthy u then u else VNull)
    end
  else Ok VNull.

Definition extractFields (recipe : value) : res Recipe :=
  let* n := get recipe "name" in
  let* d := get recipe "description" in
  let* ing := extractIngredients recipe in
  let* y := get recipe "recipeYield" in
  let* p := get recipe "prepTime" in
  let* c := get recipe "cookTime" in
  let* ins := extractInstructions recipe in
  let* img := extractImage recipe in
  Ok {| name := or_else n (VStr (js "Untitled Recipe"));
        description := or_else d (VStr []);
        ingredients := ing;
        instructions := ins;
        servings := or_else y VNull;
        prepTime := or_else p VNull;
        cookTime := or_else c VNull;
        image := img |}.

(** ** The handler *)

(** [req.body]: [undefined] or [null] when the request came without a body
    the platform could parse, or else a value with its [url], a string when
    present. *)
Inductive ReqBody : Type :=
| NoReqBody
| ReqBodyObj (url : option jstring).

Record Request : Type := mkRequest {
  method : jstring;
  x_forwarded_for : option jstring;      (* req.headers['x-forwarded-for'] *)
  x_real_ip : option jstring;            (* req.headers['x-real-ip'] *)
  remoteAddress : option jstring;        (* req.socket?.remoteAddress *)
  req_body : ReqBody                     (* req.body *)
}.

(** [req.body.url], where [req.body] can be read. *)
Definition body_url (req : Request) : option jstring :=
  match req_body req with
  | ReqBodyObj url => url
  | NoReqBody => None
  end.

(** How the first part of the handler ends when it gives no response: it goes
    on to fetch a URL, or [const { url } = req.body], which stands outside the
    [try] block, raised a [TypeError] that nothing catches. *)
Inductive Pending : Type :=
| Fetch (url : jstring)
| Uncaught.

Record State : Type := mkState { recipeCache : Cache; rateLimitMap : RateMap }.

(** The readings of [Date.now()] in the rate limiter, in [getCached] and in
    [setCache]. *)
Record Clock : Type := mkClock { t_rate : Z; t_lookup : Z; t_store : Z }.

(** What the outbound [fetch] and [response.text()] gave. *)
Inductive Fetched : Type :=
| Page (ok : bool) (html : jstring)
| FetchTimeout                           (* TimeoutError, AbortError *)
| FetchFailed.                           (* any other exception *)

Inductive Body : Type :=
| NoBody
| ErrorBody (error : string)
| RecipeBody (r : Recipe).

Record Response : Type := mkResponse {
  status : nat;
  x_cache : option string;
  body : Body
}.

Definition reject (code : nat) (msg : string) : Response :=
  mkResponse code None (ErrorBody msg).

(** [h.split(',')[0]]. *)
Fixpoint before_comma (h : jstring) : jstring :=
  match h with
  | [] => []
  | c :: r => if (c =? chr ",")%N then [] else c :: before_comma r
  end.

Definition nonempty (o : option jstring) : option jstring :=
  match o with Some (_ :: _) => o | _ => None end.

Definition clientIp (req : Request) : jstring :=
  match nonempty (option_map (fun h => trim (before_comma h)) (x_forwarded_for req)) with
  | Some ip => ip
  | None =>
      match nonempty (x_real_ip req) with
      | Some ip => ip
      | None =>
          match nonempty (remoteAddress req) with
          | Some ip => ip
          | None => js "unknown"
          end
      end
  end.

Section Handler.
Variable URL_parse : jstring -> option URL.
(** [JSON.parse(text)]: [None] when it throws. *)
Variable JSON_parse : jstring -> option value.

(** The [while ((match = jsonLdRegex.exec(html)) !== null)] loop. *)
Fixpoint collect (html : jstring) (fuel lastIndex : nat) : list value :=
  match fuel with
  | O => []
  | S fuel' =>
      match exec true html jsonLdRegex lastIndex with
      | None => []
      | Some (_, j, cs) =>
          match JSON_parse (group_text html cs 1) with
          | Some v => v :: collect html fuel' j
          | None => collect html fuel' j
          end
      end
  end.

Definition jsonLdMatches (html : jstring) : list value :=
  collect html (length html + 1) 0.

(** Validation of [result.image]. *)
Definition validateImage (img : value) : value :=
  match img with
  | VStr s =>
      if truthy img then
        match URL_parse s with
        | Some imgUrl =>
            if negb (jstring_eqb (protocol imgUrl) (js "http:"))
               && negb (jstring_eqb (protocol imgUrl) (js "https:"))
            then VNull else img
        | None => VNull
        end
      else img
  | _ => img
  end.

(** From the Recipe object to the object that is sent and cached. *)
Definition buildResult (recipe : value) : res Recipe :=
  let* r := extractFields recipe in
  Ok (sanitizeRecipe
        {| name := name r; description := description r;
           ingredients := ingredients r; instructions := instructions r;
           servings := servings r; prepTime := prepTime r; cookTime := cookTime r;
           image := validateImage (image r) |}).

(** The handler up to the point where it would fetch: a response, or the URL
    to fetch, or an exception that is not caught. *)
Definition beforeFetch (req : Request) (clk : Clock) (st : State)
  : (Response + Pending) * State :=
  if jstring_eqb (method req) (js "OPTIONS") then
    (inl (mkResponse 200 None NoBody), st)
  else if negb (jstring_eqb (method req) (js "POST")) then
    (inl (reject 405 "Method not allowed"), st)
  else
    let '(allowed, rl) := checkRateLimit (clientIp req) (t_rate clk) (rateLimitMap st) in
    let st1 := mkState (recipeCache st) rl in
    if negb allowed then
      (inl (reject 429 "Too many requests. Please wait a minute before trying again."), st1)
    else
      match req_body req with
      | NoReqBody => (inr Uncaught, st1)
      | ReqBodyObj _ =>
      match nonempty (body_url req) with
      | None => (inl (reject 400 "URL is required"), st1)
      | Some url =>
          if negb (isUrlSafe URL_parse url) then
            (inl (reject 400 "Invalid URL. Please use an https:// link."), st1)
          else if negb (isDomainAllowed URL_parse url) then
            (inl (reject 400 "This recipe site is not supported yet. Try a major recipe site like RecipeTin Eats, BBC Good Food, or Allrecipes."), st1)
          else
            let '(cached, c) := getCached url (t_lookup clk) (recipeCache st1) in
            let st2 := mkState c rl in
            match cached with
            | Some r => (inl (mkResponse 200 (Some "HIT"%string) (RecipeBody r)), st2)
            | None => (inr (Fetch url), st2)
            end
      end
      end.

(** The handler from the fetched page on. *)
Definition afterFetch (url : jstring) (net : Fetched) (clk : Clock) (st : State)
  : Response * State :=
  match net with
  | FetchTimeout => (reject 504 "Recipe page took too long to respond", st)
  | FetchFailed => (reject 500 "Failed to process recipe", st)
  | Page ok html =>
      if negb ok then (reject 502 "Could not fetch recipe page", st)
      else if (2 * 1024 * 1024 <? Z.of_nat (length html))%Z then
        (reject 502 "Page too large to process", st)
      else
        match findRecipe VNull (jsonLdMatches html) with
        | Throw => (reject 500 "Failed to process recipe", st)
        | Ok recipe =>
            if negb (truthy recipe) then
              (reject 404 "No recipe found on this page", st)
            else
              match buildResult recipe with
              | Throw => (reject 500 "Failed to process recipe", st)
              | Ok result =>
                  (mkResponse 200 (Some "MISS"%string) (RecipeBody result),
                   mkState (setCache url result (t_store clk) (recipeCache st))
                           (rateLimitMap st))
              end
        end
  end.

(** The whole handler: the response, if there is one, and the state. *)
Definition handler (req : Request) (clk : Clock) (net : Fetched) (st : State)
  : option Response * State :=
  match beforeFetch req clk st with
  | (inl resp, st') => (Some resp, st')
  | (inr (Fetch url), st') =>
      let '(resp, st'') := afterFetch url net clk st' in (Some resp, st'')
  | (inr Uncaught, st') => (None, st')
  end.
End Handler.

(** The earlier variant of the handler has the same discovery and resolution
    steps, written out again in its body. *)
Module Variant2.
(** /<script[^>]*type=[\x22']application\/ld\+json[\x22'][^>]*>([\s\S]*?)<\/script>/gi *)
Definition jsonLdRegex : regex :=
  seqs [ word (js "<script"); star (not_chr ">"); word (js "type="); quote;
         word (js "application/ld+json"); quote; star (not_chr ">"); lit ">";
         Grp 1 (star_lazy any); word (js "</script>") ].

Section Steps.
Variable JSON_parse : jstring -> option value.

Fixpoint collect (html : jstring) (fuel lastIndex : nat) : list value :=
  match fuel with
  | O => []
  | S fuel' =>
      match exec true html jsonLdRegex lastIndex with
      | None => []
      | Some (_, j, cs) =>
          match JSON_parse (group_text html cs 1) with
          | Some v => v :: collect html fuel' j
          | None => collect html fuel' j
          end
      end
  end.

Definition jsonLdMatches (html : jstring) : list value :=
  collect html (length html + 1) 0.
End Steps.

Fixpoint findRecipe (recipe : value) (matches : list value) : res value :=
  match matches with
  | [] => Ok recipe
  | data :: rest =>
      let* direct := isRecipe data in
      if direct then Ok data
      else
        let* r1 := match data with VArr items => find_Recipe items | _ => Ok recipe end in
        if isArray data && truthy r1 then Ok r1
        else
          let* g := get data "@graph" in
          match g with
          | VArr items =>
              let* r2 := find_Recipe items in
              if truthy r2 then Ok r2 else findRecipe r2 rest
          | _ => findRecipe r1 rest
          end
  end.
End Variant2.

(** ** Characters a pattern cannot match without *)

(** [needs c r]: every match of [r] consumes a character equal to [c] up to
    the case folding of the matcher (a sufficient syntactic test). *)
Fixpoint needs (c : N) (r : regex) : bool :=
  match r with
  | Lit c' => (c =? c')%N
  | Seq a b => needs c a || needs c b
  | Alt a b => needs c a && needs c b
  | Grp _ a => needs c a
  | _ => false
  end.

(** ** Text on which the sanitiser has nothing to do *)

(** No [<] and no [=]: each of the four patterns needs one of them. *)
Definition plain_string (s : jstring) : bool :=
  forallb (fun x => negb ((x =? chr "<")%N || (x =? chr "=")%N)) s.

Definition plain_value (v : value) : bool :=
  match v with VStr s => plain_string s | _ => true end.

Definition plain_recipe (r : Recipe) : bool :=
  plain_value (name r) && plain_value (description r)
  && forallb plain_value (ingredients r) && forallb plain_value (instructions r).

(** ** Sample inputs *)

Definition tea_recipe : Recipe :=
  {| name := VStr (js "Tea"); description := VStr [];
     ingredients := [VStr (js "Water"); VStr (js "Tea bag")];
     instructions := [VStr (js "Boil water"); VStr (js "Steep tea")];
     servings := VNull; prepTime := VNull; cookTime := VNull; image := VNull |}.

Definition named (n : jstring) : Recipe :=
  {| name := VStr n; description := VStr [];
     ingredients := []; instructions := [];
     servings := VNull; prepTime := VNull; cookTime := VNull; image := VNull |}.

(** ** The validators, in the words of the specification *)

(** Stripping a leading [www.]. *)
Fixpoint starts_with (p s : jstring) : bool :=
  match p, s with
  | [], _ => true
  | a :: p', b :: s' => (a =? b)%N && starts_with p' s'
  | _ :: _, [] => false
  end.

Definition strip_www (h : jstring) : jstring :=
  if starts_with (js "www.") h then drop 4 h else h.

(** An octet written in decimal: one to three digits, at most 255. *)
Definition octet_text (d : jstring) : Prop :=
  1 <= length d <= 3 /\ forallb is_digit d = true /\ (digits_value d <= 255)%N.

Definition dotted_quad (da db dc dd : jstring) : jstring :=
  da ++ chr "." :: db ++ chr "." :: dc ++ chr "." :: dd.

(** The address as a 32-bit number, and membership of a CIDR block. *)
Definition ipv4 (a b c d : N) : N := (a * 2 ^ 24 + b * 2 ^ 16 + c * 2 ^ 8 + d)%N.

Definition in_cidr (addr base bits : N) : bool :=
  (addr / 2 ^ (32 - bits) =? base / 2 ^ (32 - bits))%N.

(** 127.0.0.0/8, 10.0.0.0/8, 172.16.0.0/12, 192.168.0.0/16, 169.254.0.0/16,
    0.0.0.0/8. *)
Definition blocked_ranges : list (N * N) :=
  [ (ipv4 127 0 0 0, 8); (ipv4 10 0 0 0, 8); (ipv4 172 16 0 0, 12);
    (ipv4 192 168 0 0, 16); (ipv4 169 254 0 0, 16); (ipv4 0 0 0 0, 8) ]%N.

Definition in_blocked_range (addr : N) : bool :=
  existsb (fun '(base, bits) => in_cidr addr base bits) blocked_ranges.

(** The grounds the specification lists for rejecting a parsed URL. *)
Definition listed_ground (u : URL) : Prop :=
  protocol u <> js "https:"
  \/ username u <> [] \/ password u <> []
  \/ hostname u = js "localhost" \/ hostname u = js "0.0.0.0"
  \/ hostname u = js "[::1]"
  \/ exists da db dc dd,
       octet_text da /\ octet_text db /\ octet_text dc /\ octet_text dd
       /\ hostname u = dotted_quad da db dc dd
       /\ in_blocked_range (ipv4 (digits_value da) (digits_value db)
                                 (digits_value dc) (digits_value dd)) = true.

(** ** A stand-in for the platform's URL parser

    [plain_URL] reads the plain absolute URLs
    [scheme://[user[:password]@]host[/...]] whose scheme is http, https, ws,
    wss or ftp and whose host is a name of letters, digits, dots and hyphens
    or a dotted quad of octets without leading zeros, the way the platform's
    [URL] does (scheme and host in lower case, the protocol with its colon);
    it rejects every other string, also those the platform would accept.  It
    only serves to instantiate the parser the validators are parametrised by
    at concrete inputs. *)
Fixpoint span (p : N -> bool) (s : jstring) : jstring * jstring :=
  match s with
  | [] => ([], [])
  | c :: r => if p c then let '(a, b) := span p r in (c :: a, b) else ([], s)
  end.

Definition is_host_char (c : N) : bool :=
  is_upper c || is_lower c || is_digit c || (c =? chr ".")%N || (c =? chr "-")%N.

Definition canonical_octet (d : jstring) : bool :=
  (digits_value d <=? 255)%N
  && match d with [_] => true | c :: _ => negb (c =? chr "0")%N | [] => false end.

Definition host_ok (h : jstring) : bool :=
  match h with
  | [] => false
  | _ =>
      forallb is_host_char h
      && match last h with
         | Some c =>
             if is_digit c then
               match exec false h re_ipv4 0 with
               | Some (_, _, cs) =>
                   forallb (fun n => canonical_octet (group_text h cs n)) [1; 2; 3; 4]
               | None => false
               end
             else true
         | None => false
         end
  end.

Definition special_schemes : list jstring :=
  List.map js ["http"; "https"; "ws"; "wss"; "ftp"]%string.

Definition plain_URL (s : jstring) : option URL :=
  let '(scheme, r1) := span (fun c => is_upper c || is_lower c) s in
  match scheme, r1 with
  | _ :: _, 58%N :: 47%N :: 47%N :: r2 =>
      let '(authority, _) :=
        span (fun c => negb ((c =? chr "/")%N || (c =? chr "?")%N || (c =? chr "#")%N)) r2 in
      let '(before_at, r3) := span (fun c => negb (c =? chr "@")%N) authority in
      let '(user, pass, host) :=
        match r3 with
        | [] => ([], [], authority)
        | _ :: host =>
            let '(user, r4) := span (fun c => negb (c =? chr ":")%N) before_at in
            (user, tail r4, host)
        end in
      if host_ok host && set_has (toLowerCase scheme) special_schemes
      then Some (mkURL (toLowerCase scheme ++ [chr ":"]) user pass (toLowerCase host))
      else None
  | _, _ => None
  end.

(** The host name the parser reports for a URL. *)
Definition host_of (URL_parse : jstring -> option URL) (s : jstring) : option jstring :=
  option_map hostname (URL_parse s).

(** ** Runs of the rate limiter and of the cache *)

(** The calls of one client at the given readings of the clock, in order: the
    answers, and the table after the last call. *)
Fixpoint calls (ip : jstring) (times : list Z) (m : RateMap) : list bool * RateMap :=
  match times with
  | [] => ([], m)
  | t :: rest =>
      let '(b, m1) := checkRateLimit ip t m in
      let '(bs, m2) := calls ip rest m1 in
      (b :: bs, m2)
  end.

(** Every call comes less than a window after each earlier call. *)
Definition within_window (times : list Z) : Prop :=
  ForallOrdPairs (fun earlier later => (later - earlier < RATE_LIMIT_WINDOW_MS)%Z) times.

(** Insertions into the cache, in order: the URL, the recipe and the reading of
    the clock of each. *)
Definition inserts (l : list (jstring * Recipe * Z)) (c : Cache) : Cache :=
  fold_left (fun c '(url, d, t) => setCache url d t c) l c.

Definition inserted_urls (l : list (jstring * Recipe * Z)) : list jstring :=
  List.map (fun '(url, _, _) => url) l.

Definition entries_of (l : list (jstring * Recipe * Z)) : Cache :=
  List.map (fun '(url, d, t) => (url, mkEntry d t)) l.

(** 201 distinct URLs. *)
Definition numbered_url (n : nat) : jstring :=
  js "https://www.allrecipes.com/recipe/" ++ [N.of_nat n].

Definition many_inserts : list (jstring * Recipe * Z) :=
  List.map (fun n => (numbered_url n, tea_recipe, Z.of_nat n)) (seq 0 201).

(** ** Recipe resolution, in the words of the specification *)

(** [@type == "Recipe"], on any value. *)
Definition typed_Recipe (v : value) : bool :=
  match v with
  | VObj fs =>
      match field (js "@type") fs with
      | VStr t => jstring_eqb t (js "Recipe")
      | _ => false
      end
  | _ => false
  end.

Definition first_Recipe (items : list value) : option value :=
  List.find typed_Recipe items.

(** (a) the candidate itself; (b) the first Recipe of an array; (c) the first
    Recipe of a [@graph] array. *)
Definition branch_a (cand : value) : option value :=
  if typed_Recipe cand then Some cand else None.

Definition branch_b (cand : value) : option value :=
  match cand with VArr items => first_Recipe items | _ => None end.

Definition branch_c (cand : value) : option value :=
  match cand with
  | VObj fs =>
      match field (js "@graph") fs with
      | VArr items => first_Recipe items
      | _ => None
      end
  | _ => None
  end.

Definition candidate_Recipe (cand : value) : option value :=
  match branch_a cand with
  | Some r => Some r
  | None =>
      match branch_b cand with
      | Some r => Some r
      | None => branch_c cand
      end
  end.

(** The first candidate, in order, for which a branch succeeds wins. *)
Fixpoint resolve (cands : list value) : option value :=
  match cands with
  | [] => None
  | cand :: rest =>
      match candidate_Recipe cand with
      | Some r => Some r
      | None => resolve rest
      end
  end.

(** Reading a property of [null] (or [undefined]) raises a [TypeError]: the
    scan survives a value only if it is neither. *)
Definition readable (v : value) : bool :=
  match v with VNull | VUndef => false | _ => true end.

(** The elements [find] reads, up to the first Recipe, are readable. *)
Fixpoint scan_ok (items : list value) : bool :=
  match items with
  | [] => true
  | x :: rest => readable x && (typed_Recipe x || scan_ok rest)
  end.

Definition scannable (cand : value) : bool :=
  readable cand
  && (typed_Recipe cand
      || match cand with
         | VArr items => scan_ok items
         | VObj fs =>
             match field (js "@graph") fs with
             | VArr items => scan_ok items
             | _ => true
             end
         | _ => true
         end).

(** The candidates read, up to the winner, are scannable. *)
Fixpoint scan_prefix_ok (cands : list value) : bool :=
  match cands with
  | [] => true
  | cand :: rest =>
      scannable cand
      && (match candidate_Recipe cand with Some _ => true | None => scan_prefix_ok rest end)
  end.

(** What [if (!recipe)] makes of the loop's result. *)
Definition found (r : res value) : res (option value) :=
  match r with
  | Ok v => Ok (if truthy v then Some v else None)
  | Throw => Throw
  end.

Definition recipe_object (n : string) : value :=
  VObj [(js "@type", VStr (js "Recipe")); (js "name", VStr (js n))].

Definition website_object : value :=
  VObj [(js "@type", VStr (js "WebSite")); (js "name", VStr (js "Kitchen"))].

Definition graph_wrapper (items : list value) : value :=
  VObj [(js "@context", VStr (js "https://schema.org")); (js "@graph", VArr items)].

(** ** Returned recipes, in the words of the specification *)

(** [image] is null or a string that parses as a URL with scheme http or
    https. *)
Definition image_as_claimed (URL_parse : jstring -> option URL) (r : Recipe) : Prop :=
  image r = VNull
  \/ exists s u, image r = VStr s /\ URL_parse s = Some u
                 /\ (protocol u = js "http:" \/ protocol u = js "https:").

(** A tag of the denylist is left in the text. *)
Definition has_denylisted_tag (s : jstring) : bool :=
  match exec true s re_tag 0 with Some _ => true | None => false end.

(** Sample requests and pages. *)
Definition get_request : Request :=
  mkRequest (js "GET") (Some (js "203.0.113.7")) None None
            (ReqBodyObj (Some (js "https://www.allrecipes.com/recipe/1"))).

Definition post_without_url : Request :=
  mkRequest (js "POST") (Some (js "203.0.113.7, 10.0.0.1")) None None (ReqBodyObj None).

Definition noon : Clock := mkClock 43200000 43200000 43200500.

Definition empty_state : State := mkState [] ∅.

Definition photo_recipe : value :=
  VObj [ (js "@type", VStr (js "Recipe"));
         (js "name", VStr (js "<iframe src=x>Soup"));
         (js "recipeYield", VStr (js "<script>4</script>"));
         (js "image",
          VArr [VObj [ (js "@type", VStr (js "ImageObject"));
                       (js "url", VStr (js "https://www.allrecipes.com/soup.jpg")) ]]) ].

(** ** The continuation a matcher reads *)

(** [ma] reads its continuation only at positions from its own to the end of
    [s]. *)
Definition reads_in_range (s : jstring)
           (ma : nat -> caps -> (nat -> caps -> mres) -> mres) : Prop :=
  forall i cs k k', i <= length s ->
    (forall j cs', i <= j <= length s -> k j cs' = k' j cs') ->
    ma i cs k = ma i cs k'.

(** The sweep run every five minutes: stale timestamps are dropped and clients
    left without timestamps are removed. *)
Definition sweep (now : Z) (rateLimitMap : RateMap) : RateMap :=
  omap (fun timestamps =>
          match List.filter (in_window now) timestamps with
          | [] => None
          | kept => Some kept
          end) rateLimitMap.

(** The Recipe object of the end-to-end example of the specification. *)
Definition tea_object : value :=
  VObj [ (js "@type", VStr (js "Recipe")); (js "name", VStr (js "Tea"));
         (js "recipeIngredient", VArr [VStr (js "Water"); VStr (js "Tea bag")]);
         (js "recipeInstructions", VArr [VStr (js "Boil water"); VStr (js "Steep tea")]) ].

(** ** Invariants of the two tables *)

(** The cache holds distinct URLs and at most [CACHE_MAX_ENTRIES] of them. *)
Definition cache_ok (c : Cache) : Prop :=
  NoDup (map_keys c) /\ length c <= CACHE_MAX_ENTRIES.

(** No client has more than [RATE_LIMIT_MAX] timestamps on record. *)
Definition rate_ok (m : RateMap) : Prop :=
  forall (ip : jstring) (ts : list Z), m !! ip = Some ts -> length ts <= RATE_LIMIT_MAX.

(** ** A stand-in for the platform's JSON parser, and a page

    [tea_JSON] reads the one JSON text [tea_text], as [JSON.parse] does, and
    rejects every other text.  It only serves to instantiate the parser the
    handler is parametrised by at concrete pages. *)
Definition quoted (s : string) : jstring := dquote :: js s ++ [dquote].

Definition tea_text : jstring :=
  js "{" ++ quoted "@type" ++ js ":" ++ quoted "Recipe" ++ js ","
  ++ quoted "name" ++ js ":" ++ quoted "Tea" ++ js ","
  ++ quoted "recipeIngredient" ++ js ":[" ++ quoted "Water" ++ js ","
  ++ quoted "Tea bag" ++ js "],"
  ++ quoted "recipeInstructions" ++ js ":[" ++ quoted "Boil water" ++ js ","
  ++ quoted "Steep tea" ++ js "]}".

Definition tea_JSON (text : jstring) : option value :=
  if jstring_eqb text tea_text then Some tea_object else None.

Definition tea_page : jstring :=
  js "<html><head><script type=" ++ quoted "application/ld+json" ++ js ">"
  ++ tea_text ++ js "</script></head><body>Tea</body></html>".

Definition tea_url : jstring := js "https://www.bbcgoodfood.com/recipes/tea".

Definition post_tea (ip : string) : Request :=
  mkRequest (js "POST") (Some (js ip)) None None (ReqBodyObj (Some tea_url)).

(** The statuses the handler answers with. *)
Definition statuses : list nat := [200; 400; 404; 405; 429; 500; 502; 504].

(** A table in which one client has used up its ten slots. *)
Definition busy_state : State :=
  mkState [] (<[js "203.0.113.7" := [0; 1; 2; 3; 4; 5; 6; 7; 8; 9]%Z]> ∅).

(** ** Field extraction of the earlier variant of the handler

    The earlier variant differs in the ingredients only: it calls [i.trim()]
    on every element, which raises a [TypeError] on anything but a string. *)
Definition extractIngredients2 (recipe : value) : res (list value) :=
  let* ri := get recipe "recipeIngredient" in
  match or_else ri (VArr []) with
  | VArr items =>
      mapM (fun i => match i with VStr s => Ok (VStr (trim s)) | _ => Throw end) items
  | _ => Throw
  end.

Definition extractFields2 (recipe : value) : res Recipe :=
  let* n := get recipe "name" in
  let* d := get recipe "description" in
  let* ing := extractIngredients2 recipe in
  let* y := get recipe "recipeYield" in
  let* p := get recipe "prepTime" in
  let* c := get recipe "cookTime" in
  let* ins := extractInstructions recipe in
  let* img := extractImage recipe in
  Ok {| name := or_else n (VStr (js "Untitled Recipe"));
        description := or_else d (VStr []);
        ingredients := ing;
        instructions := ins;
        servings := or_else y VNull;
        prepTime := or_else p VNull;
        cookTime := or_else c VNull;
        image := img |}.

(** A Recipe object whose second ingredient is not a string. *)
Definition odd_object : value :=
  VObj [ (js "@type", VStr (js "Recipe")); (js "name", VStr (js "Tea"));
         (js "recipeIngredient", VArr [VStr (js " Water "); VNull]) ].

(** * Properties *)

(** ** The matcher *)

Section MatcherFacts.
Variable icase : bool.
Variable s : jstring.

Lemma rep_loop_inv ma k g :
  (forall i cs d res, ma i cs d = Some res ->
     exists j cs', i <= j /\ d j cs' = Some res) ->
  forall fuel mn mx i cs res,
    rep_loop ma k g fuel mn mx i cs = Some res ->
    exists j cs', i <= j /\ k j cs' = Some res.
Proof.
  intros Hma. induction fuel as [|fuel IH]; intros mn mx i cs res H; [discriminate|].
  cbn [rep_loop] in H.
  assert (Hd : forall d0, d0 = (fun j cs' =>
              if Nat.eqb mn 0 && Nat.eqb j i then None
              else rep_loop ma k g fuel (Nat.pred mn) (dec_max mx) j cs') ->
            ma i cs d0 = Some res -> exists j cs', i <= j /\ k j cs' = Some res).
  { intros d0 -> Hm. apply Hma in Hm as (j & cs' & Hij & Hd).
    destruct (Nat.eqb mn 0 && Nat.eqb j i); [discriminate|].
    apply IH in Hd as (j' & cs'' & Hjj & Hk). exists j', cs''. split; [lia|done]. }
  assert (Hk : k i cs = Some res -> exists j cs', i <= j /\ k j cs' = Some res).
  { intros Hk. exists i, cs. split; [lia|done]. }
  destruct mx as [[|m]|]; [by apply Hk| |].
  - destruct mn as [|mn']; [|by eapply Hd].
    destruct g.
    + destruct (ma i cs _) eqn:E in H; [injection H as <-; by eapply Hd|by apply Hk].
    + destruct (k i cs) eqn:E in H; [injection H as <-; by apply Hk|by eapply Hd].
  - destruct mn as [|mn']; [|by eapply Hd].
    destruct g.
    + destruct (ma i cs _) eqn:E in H; [injection H as <-; by eapply Hd|by apply Hk].
    + destruct (k i cs) eqn:E in H; [injection H as <-; by apply Hk|by eapply Hd].
Qed.

(** A successful match hands a later position to its continuation, and has
    consumed the characters the pattern needs. *)
Lemma rmatch_inv c r :
  forall i cs k res,
    rmatch icase s r i cs k = Some res ->
    exists j cs', i <= j /\ k j cs' = Some res /\
      (needs c r = true ->
       exists p x, i <= p /\ p < j /\ s !! p = Some x /\ char_eq icase c x = true).
Proof.
  induction r as [|c'|p|a IHa b IHb|a IHa b IHb|mn mx g a IHa|n a IHa| | |];
    intros i cs k res H; cbn [rmatch needs] in *.
  - exists i, cs. repeat split; [lia|done|discriminate].
  - destruct (s !! i) as [x|] eqn:Hx; [|discriminate].
    destruct (char_eq icase c' x) eqn:Hc; [|discriminate].
    exists (S i), cs. repeat split; [lia|done|].
    intros ->%N.eqb_eq. exists i, x. repeat split; [lia|lia|done|done].
  - destruct (s !! i) as [x|] eqn:Hx; [|discriminate].
    destruct (p x); [|discriminate].
    exists (S i), cs. repeat split; [lia|done|discriminate].
  - apply IHa in H as (j1 & cs1 & H1 & Hb & Na).
    apply IHb in Hb as (j2 & cs2 & H2 & Hk & Nb).
    exists j2, cs2. repeat split; [lia|done|].
    intros [Ha|Hb']%orb_true_iff.
    + destruct (Na Ha) as (q & x & ? & ? & ? & ?). exists q, x. repeat split; [lia|lia|done|done].
    + destruct (Nb Hb') as (q & x & ? & ? & ? & ?). exists q, x. repeat split; [lia|lia|done|done].
  - destruct (rmatch icase s a i cs k) eqn:Ea.
    + injection H as <-. apply IHa in Ea as (j & cs' & ? & ? & Na).
      exists j, cs'. repeat split; [done|done|]. intros [Ha _]%andb_true_iff. auto.
    + apply IHb in H as (j & cs' & ? & ? & Nb).
      exists j, cs'. repeat split; [done|done|]. intros [_ Hb]%andb_true_iff. auto.
  - eapply rep_loop_inv in H as (j & cs' & ? & ?).
    + exists j, cs'. repeat split; [done|done|discriminate].
    + intros i0 cs0 d res0 Hm. apply IHa in Hm as (j & cs' & ? & ? & _). eauto.
  - apply IHa in H as (j & cs' & ? & ? & Na). eauto 10.
  - destruct (Nat.eqb i 0); [|discriminate]. exists i, cs. repeat split; [lia|done|discriminate].
  - destruct (Nat.eqb i (length s)); [|discriminate].
    exists i, cs. repeat split; [lia|done|discriminate].
  - destruct (xorb _ _); [|discriminate]. exists i, cs. repeat split; [lia|done|discriminate].
Qed.

Lemma rmatch_Seq a b i cs k :
  rmatch icase s (Seq a b) i cs k
  = rmatch icase s a i cs (fun j cs' => rmatch icase s b j cs' k).
Proof. reflexivity. Qed.

Lemma rmatch_Bol_0 cs k : rmatch icase s Bol 0 cs k = k 0 cs.
Proof. reflexivity. Qed.

(** A string without a needed character has no match at all. *)
Lemma match_at_needs c r i :
  needs c r = true ->
  (forall p x, s !! p = Some x -> char_eq icase c x = false) ->
  match_at icase s r i = None.
Proof.
  intros Hn Hs. unfold match_at.
  destruct (rmatch _ _ _ _ _ _) eqn:E; [|done].
  apply (rmatch_inv c) in E as (j & cs' & _ & _ & N).
  destruct (N Hn) as (q & x & _ & _ & Hx & Hc). rewrite (Hs _ _ Hx) in Hc. discriminate.
Qed.

Lemma search_none r :
  (forall i, match_at icase s r i = None) ->
  forall fuel i, search icase s r fuel i = None.
Proof.
  intros H. induction fuel as [|fuel IH]; intros i; [done|].
  cbn [search]. by rewrite H, IH.
Qed.

(** A match is found at a position the string has, or at its end; it is not
    empty when the pattern needs a character. *)
Lemma search_some r fuel i0 i j cs :
  search icase s r fuel i0 = Some (i, j, cs) ->
  i0 <= i /\ i < i0 + fuel /\ match_at icase s r i = Some (j, cs).
Proof.
  revert i0. induction fuel as [|fuel IH]; intros i0 H; [discriminate|].
  cbn [search] in H. destruct (match_at icase s r i0) as [[j' cs']|] eqn:E.
  - injection H as <- <- <-. repeat split; [lia|lia|done].
  - apply IH in H as (? & ? & ?). repeat split; [lia|lia|done].
Qed.

Lemma exec_progress c r last i j cs :
  needs c r = true ->
  exec icase s r last = Some (i, j, cs) -> last <= i /\ i < j.
Proof.
  intros Hn H. apply search_some in H as (? & _ & H). split; [done|].
  apply (rmatch_inv c) in H as (j' & cs' & _ & Hk & N). injection Hk as <- <-.
  destruct (N Hn) as (q & x & ? & ? & _). lia.
Qed.
(** *** The fuel is enough *)

Lemma rep_loop_ext ma g :
  reads_in_range s ma ->
  forall fuel mn mx i cs k k', i <= length s ->
    (forall j cs', i <= j <= length s -> k j cs' = k' j cs') ->
    rep_loop ma k g fuel mn mx i cs = rep_loop ma k' g fuel mn mx i cs.
Proof.
  intros Hma. induction fuel as [|fuel IH]; intros mn mx i cs k k' Hi Hk; [done|].
  cbn [rep_loop]. rewrite (Hk i cs) by lia.
  assert (Hd : ma i cs (fun j cs' => if Nat.eqb mn 0 && Nat.eqb j i then None
                 else rep_loop ma k g fuel (Nat.pred mn) (dec_max mx) j cs')
             = ma i cs (fun j cs' => if Nat.eqb mn 0 && Nat.eqb j i then None
                 else rep_loop ma k' g fuel (Nat.pred mn) (dec_max mx) j cs')).
  { apply Hma; [done|]. intros j cs' Hj.
    destruct (Nat.eqb mn 0 && Nat.eqb j i); [done|].
    apply IH; [lia|]. intros j' cs'' Hj'. apply Hk. lia. }
  by rewrite Hd.
Qed.

Lemma rmatch_ext r : reads_in_range s (rmatch icase s r).
Proof.
  induction r as [|c'|p|a IHa b IHb|a IHa b IHb|mn mx g a IHa|n a IHa| | |];
    intros i cs k k' Hi Hk; cbn [rmatch].
  - apply Hk. lia.
  - destruct (s !! i) as [x|] eqn:Hx; [|done].
    apply lookup_lt_Some in Hx. destruct (char_eq icase c' x); [|done]. apply Hk. lia.
  - destruct (s !! i) as [x|] eqn:Hx; [|done].
    apply lookup_lt_Some in Hx. destruct (p x); [|done]. apply Hk. lia.
  - apply IHa; [done|]. intros j cs' Hj. apply IHb; [lia|].
    intros j' cs'' Hj'. apply Hk. lia.
  - rewrite (IHa i cs k k'), (IHb i cs k k') by done. reflexivity.
  - by apply rep_loop_ext.
  - apply IHa; [done|]. intros j cs' Hj. apply Hk. lia.
  - destruct (Nat.eqb i 0); [|done]. apply Hk. lia.
  - destruct (Nat.eqb i (length s)); [|done]. apply Hk. lia.
  - destruct (xorb _ _); [|done]. apply Hk. lia.
Qed.

(** Any fuel above the minimum plus the characters left gives the same
    result. *)
Lemma rep_loop_fuel ma g k :
  reads_in_range s ma ->
  forall f1 f2 mn mx i cs, i <= length s ->
    mn + (length s - i) < f1 -> mn + (length s - i) < f2 ->
    rep_loop ma k g f1 mn mx i cs = rep_loop ma k g f2 mn mx i cs.
Proof.
  intros Hma. induction f1 as [|f1 IH]; intros f2 mn mx i cs Hi H1 H2; [lia|].
  destruct f2 as [|f2]; [lia|]. cbn [rep_loop].
  assert (Hd : ma i cs (fun j cs' => if Nat.eqb mn 0 && Nat.eqb j i then None
                 else rep_loop ma k g f1 (Nat.pred mn) (dec_max mx) j cs')
             = ma i cs (fun j cs' => if Nat.eqb mn 0 && Nat.eqb j i then None
                 else rep_loop ma k g f2 (Nat.pred mn) (dec_max mx) j cs')).
  { apply Hma; [done|]. intros j cs' Hj.
    destruct (Nat.eqb mn 0 && Nat.eqb j i) eqn:E; [done|].
    apply IH; [lia| |].
    - destruct mn as [|mn']; [|cbn; lia]. cbn in E. apply Nat.eqb_neq in E. cbn. lia.
    - destruct mn as [|mn']; [|cbn; lia]. cbn in E. apply Nat.eqb_neq in E. cbn. lia. }
  by rewrite Hd.
Qed.

Lemma rmatch_Rep_fuel mn mx g a i cs k fuel :
  i <= length s -> mn + (length s - i) < fuel ->
  rmatch icase s (Rep mn mx g a) i cs k
  = rep_loop (rmatch icase s a) k g fuel mn mx i cs.
Proof.
  intros Hi Hf. cbn [rmatch]. apply rep_loop_fuel; [apply rmatch_ext|done|lia|done].
Qed.

Lemma exec_past_end r last : length s < last -> exec icase s r last = None.
Proof.
  intros H. unfold exec. by replace (length s + 1 - last) with 0 by lia.
Qed.
End MatcherFacts.

(** The number of rounds given to the replacement loop is enough: any number
    above the positions left gives the same string. *)
Lemma replace_loop_fuel icase r tpl s :
  forall f1 f2 last src,
    length s + 1 < f1 + last -> length s + 1 < f2 + last ->
    replace_loop icase r tpl s f1 last src = replace_loop icase r tpl s f2 last src.
Proof.
  induction f1 as [|f1 IH]; intros f2 last src H1 H2.
  - destruct f2 as [|f2]; [done|]. cbn [replace_loop].
    rewrite exec_past_end by lia. reflexivity.
  - cbn [replace_loop]. destruct f2 as [|f2].
    + rewrite exec_past_end by lia. reflexivity.
    + cbn [replace_loop].
      destruct (exec icase s r last) as [[[i j] cs]|] eqn:E; [|done].
      pose proof (search_some _ _ _ _ _ _ _ _ E) as (Hi & _ & Hm).
      unfold match_at in Hm. apply (rmatch_inv _ _ 0%N) in Hm as (j' & cs' & Hj & [= -> ->] & _).
      f_equal. f_equal. apply IH.
      * destruct (Nat.eqb j i) eqn:Ej; [|apply Nat.eqb_neq in Ej]; lia.
      * destruct (Nat.eqb j i) eqn:Ej; [|apply Nat.eqb_neq in Ej]; lia.
Qed.

(** Replacing with a pattern that has no match gives the string back. *)
Lemma replace_all_no_match icase r tpl s :
  (forall i, match_at icase s r i = None) ->
  replace_all icase r tpl s = s.
Proof.
  intros H. unfold replace_all. replace (length s + 2) with (S (length s + 1)) by lia.
  cbn [replace_loop]. unfold exec. by rewrite search_none.
Qed.

(** ** The sanitiser *)

Lemma char_eq_plain (x : N) :
  negb ((x =? chr "<")%N || (x =? chr "=")%N) = true ->
  char_eq true (chr "<") x = false /\ char_eq true (chr "=") x = false.
Proof.
  intros H. apply negb_true_iff, orb_false_iff in H as [H1 H2].
  apply N.eqb_neq in H1, H2. change (chr "<") with 60%N in *. change (chr "=") with 61%N in *.
  unfold char_eq, canon, is_lower. change (97 <=? 60)%N with false. change (97 <=? 61)%N with false.
  cbn [andb]. split; apply N.eqb_neq.
  - destruct ((97 <=? x)%N && (x <=? 122)%N) eqn:E; [|congruence].
    apply andb_true_iff in E as [E1%N.leb_le E2%N.leb_le]. lia.
  - destruct ((97 <=? x)%N && (x <=? 122)%N) eqn:E; [|congruence].
    apply andb_true_iff in E as [E1%N.leb_le E2%N.leb_le]. lia.
Qed.

Lemma plain_lookup (s : jstring) p x :
  plain_string s = true -> s !! p = Some x ->
  char_eq true (chr "<") x = false /\ char_eq true (chr "=") x = false.
Proof.
  intros Hs Hx. apply char_eq_plain.
  unfold plain_string in Hs. rewrite forallb_forall in Hs. apply Hs.
  apply list_elem_of_In. by eapply list_elem_of_lookup_2.
Qed.

(** On text without [<] and [=] none of the four replacements finds a match. *)
Lemma sanitizeString_plain (s : jstring) :
  plain_string s = true -> sanitizeString s = s.
Proof.
  intros Hs. unfold sanitizeString.
  rewrite (replace_all_no_match true re_tag [] s).
  2:{ intros i. apply (match_at_needs true s (chr "<")); [reflexivity|].
      intros p x Hx. by destruct (plain_lookup s p x Hs Hx). }
  rewrite (replace_all_no_match true re_handler [] s).
  2:{ intros i. apply (match_at_needs true s (chr "=")); [reflexivity|].
      intros p x Hx. by destruct (plain_lookup s p x Hs Hx). }
  rewrite (replace_all_no_match true re_scheme _ s).
  2:{ intros i. apply (match_at_needs true s (chr "=")); [reflexivity|].
      intros p x Hx. by destruct (plain_lookup s p x Hs Hx). }
  apply replace_all_no_match.
  intros i. apply (match_at_needs true s (chr "<")); [reflexivity|].
  intros p x Hx. by destruct (plain_lookup s p x Hs Hx).
Qed.

Lemma sanitizeText_plain (v : value) :
  plain_value v = true -> sanitizeText v = v.
Proof. destruct v; cbn; intros H; try done. by rewrite sanitizeString_plain. Qed.

Lemma map_sanitizeText_plain (l : list value) :
  forallb plain_value l = true -> List.map sanitizeText l = l.
Proof.
  induction l as [|v l IH]; cbn; [done|].
  intros [Hv Hl]%andb_true_iff. by rewrite sanitizeText_plain, IH.
Qed.

(** C2 (the code at the input of the claim): the name
    [<script>alert(1)</script>Soup] is sanitised to [alert(1)Soup], not to
    [Soup]: the first replacement removes the two tags, so the last one, which
    would remove the block with its content, finds nothing. *)
Theorem C2_script_content_survives :
  name (sanitizeRecipe (named (js "<script>alert(1)</script>Soup")))
    = VStr (js "alert(1)Soup")
  /\ sanitizeText (VStr (js "<script>alert(1)</script>Soup")) <> VStr (js "Soup").
Proof. split; [vm_compute; reflexivity|]. vm_compute. discriminate. Qed.

(** C3 (as stated, refuted): a second pass changes the recipe named
    [<scr<script>ipt>]; the first pass leaves [<script>], the second removes
    it. *)
Lemma C3_counterexample :
  sanitizeRecipe (sanitizeRecipe (named (js "<scr<script>ipt>")))
    <> sanitizeRecipe (named (js "<scr<script>ipt>"))
  /\ sanitizeString (js "<scr<script>ipt>") = js "<script>"
  /\ sanitizeString (js "<script>") = [].
Proof.
  split; [|split; vm_compute; reflexivity].
  intros H. apply (f_equal name) in H. vm_compute in H. discriminate.
Qed.

(** C3 (amended): sanitising is idempotent on every recipe whose sanitised
    [name], [description], [ingredients] and [instructions] hold no [<] and no
    [=]. *)
Theorem C3_sanitize_idempotent_on_plain (r : Recipe) :
  plain_recipe (sanitizeRecipe r) = true ->
  sanitizeRecipe (sanitizeRecipe r) = sanitizeRecipe r.
Proof.
  generalize (sanitizeRecipe r). clear r. intros [n d ing ins sv pt ct img].
  unfold plain_recipe, sanitizeRecipe. cbn.
  intros [[[Hn Hd]%andb_true_iff Hing]%andb_true_iff Hins]%andb_true_iff.
  rewrite !map_sanitizeText_plain, !sanitizeText_plain by done.
  by destruct (truthy n), (truthy d).
Qed.

Lemma C3_sanitize_idempotent_on_plain_witness :
  plain_recipe (sanitizeRecipe tea_recipe) = true
  /\ sanitizeRecipe (sanitizeRecipe tea_recipe) = sanitizeRecipe tea_recipe.
Proof.
  split; [vm_compute; reflexivity|].
  apply (C3_sanitize_idempotent_on_plain tea_recipe). vm_compute. reflexivity.
Defined.

Example plain_URL_1 :
  plain_URL (js "https://www.allrecipes.com/x")
  = Some (mkURL (js "https:") [] [] (js "www.allrecipes.com")).
Proof. vm_compute. reflexivity. Qed.
Example plain_URL_2 :
  plain_URL (js "HTTP://user:pw@192.168.1.10/a?b#c")
  = Some (mkURL (js "http:") (js "user") (js "pw") (js "192.168.1.10")).
Proof. vm_compute. reflexivity. Qed.
Example plain_URL_3 : plain_URL (js "https://010.1.1.1/") = None.
Proof. vm_compute. reflexivity. Qed.
Example plain_URL_4 : plain_URL (js "recipe") = None.
Proof. vm_compute. reflexivity. Qed.

(** ** The validators *)

Lemma match_at_www_later (h : jstring) i :
  0 < i -> match_at false h re_www i = None.
Proof. intros Hi. destruct i; [lia|reflexivity]. Qed.

Lemma match_at_www_start (h : jstring) :
  match_at false h re_www 0
  = if starts_with (js "www.") h then Some (4, []) else None.
Proof.
  unfold match_at, re_www, lit, char_eq.
  destruct h as [|a [|b [|c [|d r]]]]; cbn; unfold chr;
    change (N.of_nat (nat_of_ascii "w")) with 119%N;
    change (N.of_nat (nat_of_ascii ".")) with 46%N; try done.
  - by destruct (119 =? a)%N.
  - by destruct (119 =? a)%N, (119 =? b)%N.
  - by destruct (119 =? a)%N, (119 =? b)%N, (119 =? c)%N.
  - by destruct (119 =? a)%N, (119 =? b)%N, (119 =? c)%N, (46 =? d)%N.
Qed.

(** [h.replace(/^www\./, '')] strips a leading [www.] and nothing else. *)
Lemma replace_first_www (h : jstring) :
  replace_first false re_www [] h = strip_www h.
Proof.
  unfold replace_first, exec.
  replace (length h + 1 - 0) with (S (length h)) by lia. cbn [search].
  rewrite match_at_www_start.
  assert (Hn : search false h re_www (length h) 1 = None).
  { generalize (length h). intros n. assert (H1 : 0 < 1) by lia. revert H1.
    generalize 1. induction n as [|n IH]; intros i Hi; [done|].
    cbn [search]. rewrite match_at_www_later by done. apply IH. lia. }
  unfold strip_www. destruct (starts_with (js "www.") h); [reflexivity|].
  by rewrite Hn.
Qed.

Lemma set_has_In (x : jstring) (l : list jstring) : set_has x l = true <-> In x l.
Proof.
  unfold set_has. rewrite existsb_exists. split.
  - intros (y & Hy & E). unfold jstring_eqb in E. apply bool_decide_eq_true in E. by subst.
  - intros H. exists x. split; [done|]. unfold jstring_eqb. by apply bool_decide_eq_true.
Qed.

Lemma isDomainAllowed_spec (URL_parse : jstring -> option URL) (s : jstring) :
  isDomainAllowed URL_parse s = true
  <-> exists u, URL_parse s = Some u
        /\ In (strip_www (toLowerCase (hostname u))) ALLOWED_DOMAINS.
Proof.
  unfold isDomainAllowed. destruct (URL_parse s) as [u|].
  - rewrite replace_first_www, set_has_In. split; [eauto|].
    by intros (u' & [= <-] & H).
  - split; [done|]. by intros (u' & [=] & _).
Qed.

(** C8: [isDomainAllowed] lower-cases the host name, strips a leading [www.]
    and answers whether the result is a member of the allowlist (and answers
    false when the URL does not parse); with the host names the platform's
    parser reports for the three URLs of the claim, it accepts
    [https://www.allrecipes.com/x] and [https://allrecipes.com/x] and rejects
    [https://evil.allrecipes.com/x]. *)
Theorem C8_isDomainAllowed (URL_parse : jstring -> option URL) :
  host_of URL_parse (js "https://www.allrecipes.com/x") = Some (js "www.allrecipes.com") ->
  host_of URL_parse (js "https://allrecipes.com/x") = Some (js "allrecipes.com") ->
  host_of URL_parse (js "https://evil.allrecipes.com/x") = Some (js "evil.allrecipes.com") ->
  (forall s, isDomainAllowed URL_parse s = true
     <-> exists u, URL_parse s = Some u
           /\ In (strip_www (toLowerCase (hostname u))) ALLOWED_DOMAINS)
  /\ isDomainAllowed URL_parse (js "https://www.allrecipes.com/x") = true
  /\ isDomainAllowed URL_parse (js "https://allrecipes.com/x") = true
  /\ isDomainAllowed URL_parse (js "https://evil.allrecipes.com/x") = false.
Proof.
  unfold host_of. intros H1 H2 H3. split; [apply isDomainAllowed_spec|].
  unfold isDomainAllowed.
  destruct (URL_parse (js "https://www.allrecipes.com/x")) as [u1|]; [|discriminate].
  destruct (URL_parse (js "https://allrecipes.com/x")) as [u2|]; [|discriminate].
  destruct (URL_parse (js "https://evil.allrecipes.com/x")) as [u3|]; [|discriminate].
  cbn [option_map] in H1, H2, H3. injection H1 as ->. injection H2 as ->. injection H3 as ->.
  repeat split; vm_compute; reflexivity.
Qed.

Lemma C8_isDomainAllowed_witness :
  (forall s, isDomainAllowed plain_URL s = true
     <-> exists u, plain_URL s = Some u
           /\ In (strip_www (toLowerCase (hostname u))) ALLOWED_DOMAINS)
  /\ isDomainAllowed plain_URL (js "https://www.allrecipes.com/x") = true
  /\ isDomainAllowed plain_URL (js "https://allrecipes.com/x") = true
  /\ isDomainAllowed plain_URL (js "https://evil.allrecipes.com/x") = false.
Proof.
  apply (C8_isDomainAllowed plain_URL); vm_compute; reflexivity.
Defined.

(** *** Dotted quads and the IPv4 pattern *)

Section Octets.
Variable h : jstring.

Lemma drop_lookup_head i x (rest : jstring) :
  drop i h = x :: rest -> h !! i = Some x.
Proof.
  intros H. rewrite <- (Nat.add_0_r i), <- lookup_drop, H. reflexivity.
Qed.

Lemma drop_cons_next i x (rest : jstring) :
  drop i h = x :: rest -> drop (S i) h = rest.
Proof.
  intros H. replace (S i) with (i + 1) by lia. rewrite <- drop_drop, H. reflexivity.
Qed.

Lemma drop_app_next i (ds rest : jstring) :
  drop i h = ds ++ rest -> drop (i + length ds) h = rest.
Proof. intros H. rewrite <- drop_drop, H. apply drop_app_length. Qed.

(** A greedy run over [n] digits that cannot be extended ends at the [n]-th
    position when the continuation succeeds there. *)
Lemma rep_digits n :
  forall fuel mn mx i cs k res (ds rest : jstring),
    n < fuel -> mn <= n ->
    match mx with Some m => n <= m | None => True end ->
    drop i h = ds ++ rest -> length ds = n -> forallb is_digit ds = true ->
    (mx = Some n \/ match rest with x :: _ => is_digit x = false | [] => True end) ->
    k (i + n) cs = Some res ->
    rep_loop (rmatch false h digit) k true fuel mn mx i cs = Some res.
Proof.
  induction n as [|n IH]; intros fuel mn mx i cs k res ds rest Hf Hmn Hmx Hd Hl Hds Hstop Hk.
  - destruct fuel as [|fuel]; [lia|]. rewrite Nat.add_0_r in Hk.
    destruct ds; [|done]. cbn [app] in Hd.
    assert (mn = 0) as -> by lia. cbn [rep_loop].
    assert (Hfail : forall d, rmatch false h digit i cs d = None
                              \/ mx = Some 0).
    { intros d. destruct Hstop as [->|Hstop]; [by right|left].
      cbn [rmatch digit]. destruct rest as [|x rest'].
      - rewrite lookup_ge_None_2; [done|].
        apply (f_equal length) in Hd. rewrite length_drop in Hd. cbn in Hd. lia.
      - rewrite (drop_lookup_head _ _ _ Hd). by rewrite Hstop. }
    destruct mx as [[|m]|]; [done| |].
    + destruct (Hfail (fun j cs' => if Nat.eqb 0 0 && Nat.eqb j i then None
         else rep_loop (rmatch false h digit) k true fuel (Nat.pred 0) (dec_max (Some (S m))) j cs'))
        as [->|?]; [done|done].
    + destruct (Hfail (fun j cs' => if Nat.eqb 0 0 && Nat.eqb j i then None
         else rep_loop (rmatch false h digit) k true fuel (Nat.pred 0) (dec_max None) j cs'))
        as [->|?]; [done|done].
  - destruct fuel as [|fuel]; [lia|].
    destruct ds as [|x ds]; [done|]. cbn in Hl, Hds, Hd.
    apply andb_true_iff in Hds as [Hx Hds].
    assert (Hstep : forall d,
              d (S i) cs = Some res -> rmatch false h digit i cs d = Some res).
    { intros d Hdd. cbn [rmatch digit]. rewrite (drop_lookup_head _ _ _ Hd). by rewrite Hx. }
    assert (Hrec : rep_loop (rmatch false h digit) k true fuel (Nat.pred mn) (dec_max mx)
                     (S i) cs = Some res).
    { eapply (IH fuel (Nat.pred mn) (dec_max mx) (S i) cs k res ds rest); try done; try lia.
      - destruct mx as [m|]; cbn; [lia|done].
      - by eapply drop_cons_next.
      - destruct Hstop as [->|Hstop]; [by left|by right].
      - by replace (S i + n) with (i + S n) by lia. }
    assert (Hne : forall b : bool, b && Nat.eqb (S i) i = false).
    { intros b. replace (Nat.eqb (S i) i) with false; [by destruct b|].
      symmetry. apply Nat.eqb_neq. lia. }
    cbn [rep_loop].
    destruct mx as [[|m]|]; [cbn in Hmx; lia| |].
    + destruct mn as [|mn'].
      * rewrite (Hstep _); [done|]. by rewrite Hne.
      * apply Hstep. by rewrite Hne.
    + destruct mn as [|mn'].
      * rewrite (Hstep _); [done|]. by rewrite Hne.
      * apply Hstep. by rewrite Hne.
Qed.

Lemma step_octet i n cs k res (ds rest : jstring) :
  drop i h = ds ++ rest -> 1 <= length ds <= 3 -> forallb is_digit ds = true ->
  match rest with x :: _ => is_digit x = false | [] => True end ->
  k (i + length ds) ((n, (i, i + length ds)) :: cs) = Some res ->
  rmatch false h (Grp n octet) i cs k = Some res.
Proof.
  intros Hd Hl Hds Hrest Hk. cbn [rmatch octet].
  eapply (rep_digits (length ds)); try done; try lia.
  - apply (f_equal length) in Hd. rewrite length_drop, length_app in Hd. lia.
  - by right.
Qed.

Lemma step_lit i c x (rest : jstring) cs k :
  drop i h = x :: rest -> (c =? x)%N = true ->
  rmatch false h (Lit c) i cs k = k (S i) cs.
Proof.
  intros Hd Hc. cbn [rmatch]. rewrite (drop_lookup_head _ _ _ Hd). unfold char_eq. by rewrite Hc.
Qed.
End Octets.

Lemma octet_text_digit_free (d : jstring) :
  forallb is_digit d = true -> toLowerCase d = d.
Proof.
  induction d as [|x d IH]; [done|]. cbn [forallb]. intros [Hx Hd]%andb_true_iff.
  unfold toLowerCase in *. cbn [List.map]. rewrite IH by done. f_equal.
  unfold lower_char, is_upper.
  unfold is_digit in Hx. apply andb_true_iff in Hx as [H1%N.leb_le H2%N.leb_le].
  replace (x <=? 90)%N with true by (symmetry; apply N.leb_le; lia).
  replace (65 <=? x)%N with false by (symmetry; apply N.leb_gt; lia). done.
Qed.

Lemma toLowerCase_app (a b : jstring) :
  toLowerCase (a ++ b) = toLowerCase a ++ toLowerCase b.
Proof. apply List.map_app. Qed.

Lemma toLowerCase_dotted_quad (da db dc dd : jstring) :
  octet_text da -> octet_text db -> octet_text dc -> octet_text dd ->
  toLowerCase (dotted_quad da db dc dd) = dotted_quad da db dc dd.
Proof.
  intros (_ & Ha & _) (_ & Hb & _) (_ & Hc & _) (_ & Hd & _). unfold dotted_quad.
  apply octet_text_digit_free in Ha, Hb, Hc, Hd. unfold toLowerCase in *.
  rewrite List.map_app; cbn [List.map]. rewrite List.map_app; cbn [List.map].
  rewrite List.map_app; cbn [List.map]. by rewrite Ha, Hb, Hc, Hd.
Qed.

(** The IPv4 pattern matches a dotted quad, with the octets as its groups. *)
Lemma exec_ipv4_dotted_quad (da db dc dd : jstring) :
  octet_text da -> octet_text db -> octet_text dc -> octet_text dd ->
  exists j cs,
    exec false (dotted_quad da db dc dd) re_ipv4 0 = Some (0, j, cs)
    /\ group_text (dotted_quad da db dc dd) cs 1 = da
    /\ group_text (dotted_quad da db dc dd) cs 2 = db.
Proof.
  intros (La & Ha & _) (Lb & Hb & _) (Lc & Hc & _) (Ld & Hd & _).
  set (h := dotted_quad da db dc dd).
  assert (D0 : drop 0 h = da ++ chr "." :: db ++ chr "." :: dc ++ chr "." :: dd) by done.
  pose proof (drop_app_next h _ _ _ D0) as D1.
  pose proof (drop_cons_next h _ _ _ D1) as D2.
  pose proof (drop_app_next h _ _ _ D2) as D3.
  pose proof (drop_cons_next h _ _ _ D3) as D4.
  pose proof (drop_app_next h _ _ _ D4) as D5.
  pose proof (drop_cons_next h _ _ _ D5) as D6.
  assert (D6' : drop (S (S (S (0 + length da) + length db) + length dc)) h = dd ++ [])
    by (by rewrite app_nil_r).
  assert (Hlen : length h = S (S (S (0 + length da) + length db) + length dc) + length dd).
  { unfold h, dotted_quad. rewrite !length_app; cbn [length]. rewrite !length_app; cbn [length].
    rewrite !length_app; cbn [length]. lia. }
  assert (Hm : match_at false h re_ipv4 0
               = Some (S (S (S (0 + length da) + length db) + length dc) + length dd,
                       [ (4, (S (S (S (0 + length da) + length db) + length dc),
                              S (S (S (0 + length da) + length db) + length dc) + length dd));
                         (3, (S (S (0 + length da) + length db),
                              S (S (0 + length da) + length db) + length dc));
                         (2, (S (0 + length da), S (0 + length da) + length db));
                         (1, (0, 0 + length da)) ])).
  { unfold match_at, re_ipv4, lit. cbn [seqs].
    rewrite rmatch_Seq, rmatch_Bol_0, rmatch_Seq.
    eapply (step_octet h 0 1 _ _ _ da); [exact D0|done|done|done|]. cbv beta.
    rewrite rmatch_Seq, (step_lit h _ _ _ _ _ _ D1) by done. rewrite rmatch_Seq.
    eapply (step_octet h _ 2 _ _ _ db); [exact D2|done|done|done|]. cbv beta.
    rewrite rmatch_Seq, (step_lit h _ _ _ _ _ _ D3) by done. rewrite rmatch_Seq.
    eapply (step_octet h _ 3 _ _ _ dc); [exact D4|done|done|done|]. cbv beta.
    rewrite rmatch_Seq, (step_lit h _ _ _ _ _ _ D5) by done. rewrite rmatch_Seq.
    eapply (step_octet h _ 4 _ _ _ dd); [exact D6'|done|done|done|]. cbv beta.
    cbn [rmatch]. rewrite <- Hlen, Nat.eqb_refl. reflexivity. }
  eexists _, _. split; [|split].
  - unfold exec. replace (length h + 1 - 0) with (S (length h)) by lia.
    cbn [search]. rewrite Hm. reflexivity.
  - unfold group_text, substring. cbn [cap_lookup Nat.eqb].
    rewrite D0. replace (0 + length da - 0) with (length da) by lia. apply take_app_length.
  - unfold group_text, substring. cbn [cap_lookup Nat.eqb].
    rewrite D2. replace (S (0 + length da) + length db - S (0 + length da)) with (length db) by lia.
    apply take_app_length.
Qed.

(** Membership of the six blocks, on the first two octets. *)
Lemma in_blocked_range_octets (a b c d : N) :
  (a <= 255 -> b <= 255 -> c <= 255 -> d <= 255 ->
   in_blocked_range (ipv4 a b c d)
   = (a =? 127) || (a =? 10) || (a =? 172) && (16 <=? b) && (b <=? 31)
     || (a =? 192) && (b =? 168) || (a =? 169) && (b =? 254) || (a =? 0))%N.
Proof.
  intros Ha Hb Hc Hd. unfold in_blocked_range, blocked_ranges, in_cidr.
  cbn [existsb].
  change (ipv4 127 0 0 0 / 2 ^ (32 - 8))%N with 127%N.
  change (ipv4 10 0 0 0 / 2 ^ (32 - 8))%N with 10%N.
  change (ipv4 172 16 0 0 / 2 ^ (32 - 12))%N with 2753%N.
  change (ipv4 192 168 0 0 / 2 ^ (32 - 16))%N with 49320%N.
  change (ipv4 169 254 0 0 / 2 ^ (32 - 16))%N with 43518%N.
  change (ipv4 0 0 0 0 / 2 ^ (32 - 8))%N with 0%N.
  change (2 ^ (32 - 8))%N with 16777216%N. change (2 ^ (32 - 12))%N with 1048576%N.
  change (2 ^ (32 - 16))%N with 65536%N. unfold ipv4.
  change (2 ^ 24)%N with 16777216%N. change (2 ^ 16)%N with 65536%N. change (2 ^ 8)%N with 256%N.
  pose proof (N.div_mod b 16 ltac:(lia)) as Hb16.
  pose proof (N.mod_upper_bound b 16 ltac:(lia)) as Hm16.
  set (q := (b / 16)%N) in *. set (m := (b mod 16)%N) in *.
  assert (H8 : ((a * 16777216 + b * 65536 + c * 256 + d) / 16777216 = a)%N).
  { symmetry. apply (N.div_unique _ _ _ (b * 65536 + c * 256 + d)%N); lia. }
  assert (H16 : ((a * 16777216 + b * 65536 + c * 256 + d) / 65536 = a * 256 + b)%N).
  { symmetry. apply (N.div_unique _ _ _ (c * 256 + d)%N); lia. }
  assert (H12 : ((a * 16777216 + b * 65536 + c * 256 + d) / 1048576 = a * 16 + q)%N).
  { symmetry. apply (N.div_unique _ _ _ (m * 65536 + c * 256 + d)%N); lia. }
  rewrite H8, H16, H12.
  assert (E3 : (a * 16 + q =? 2753)%N = (a =? 172)%N && (16 <=? b)%N && (b <=? 31)%N).
  { apply eq_true_iff_eq. rewrite !andb_true_iff, !N.eqb_eq, !N.leb_le. lia. }
  assert (E4 : (a * 256 + b =? 49320)%N = (a =? 192)%N && (b =? 168)%N).
  { apply eq_true_iff_eq. rewrite !andb_true_iff, !N.eqb_eq. lia. }
  assert (E5 : (a * 256 + b =? 43518)%N = (a =? 169)%N && (b =? 254)%N).
  { apply eq_true_iff_eq. rewrite !andb_true_iff, !N.eqb_eq. lia. }
  rewrite E3, E4, E5, orb_false_r, !orb_assoc. reflexivity.
Qed.

Lemma jstring_eqb_eq (a b : jstring) : jstring_eqb a b = true <-> a = b.
Proof. unfold jstring_eqb. apply bool_decide_eq_true. Qed.

Lemma jstring_eqb_neq (a b : jstring) : jstring_eqb a b = false <-> a <> b.
Proof. unfold jstring_eqb. apply bool_decide_eq_false. Qed.

(** C4: [isUrlSafe] is false for a string that does not parse, and for a
    parsed URL whose scheme is not https, or that carries a user name or a
    password, or whose host name is [localhost], [0.0.0.0] or [[::1]], or is a
    dotted quad in 127.0.0.0/8, 10.0.0.0/8, 172.16.0.0/12, 192.168.0.0/16,
    169.254.0.0/16 or 0.0.0.0/8. *)
Theorem C4_isUrlSafe_rejects (URL_parse : jstring -> option URL) (s : jstring) :
  match URL_parse s with
  | Some u => listed_ground u
  | None => True
  end ->
  isUrlSafe URL_parse s = false.
Proof.
  unfold isUrlSafe. destruct (URL_parse s) as [u|]; [|done]. intros H. cbv zeta.
  destruct (negb (jstring_eqb (protocol u) (js "https:"))) eqn:E1; [done|].
  destruct (negb (jstring_eqb (username u) []) || negb (jstring_eqb (password u) []))
    eqn:E2; [done|].
  destruct (jstring_eqb (toLowerCase (hostname u)) (js "localhost")
            || jstring_eqb (toLowerCase (hostname u)) (js "0.0.0.0")
            || jstring_eqb (toLowerCase (hostname u)) (js "[::1]")) eqn:E3; [done|].
  apply negb_false_iff, jstring_eqb_eq in E1.
  apply orb_false_iff in E2 as [E2u%negb_false_iff%jstring_eqb_eq E2p%negb_false_iff%jstring_eqb_eq].
  apply orb_false_iff in E3 as [[E3a E3b]%orb_false_iff E3c].
  destruct H as [H|[H|[H|[H|[H|[H|H]]]]]]; try done.
  - rewrite H in E3a. discriminate.
  - rewrite H in E3b. discriminate.
  - rewrite H in E3c. discriminate.
  - destruct H as (da & db & dc & dd & Oa & Ob & Oc & Od & -> & Hr).
    rewrite toLowerCase_dotted_quad by done.
    destruct (exec_ipv4_dotted_quad da db dc dd Oa Ob Oc Od) as (j & cs & -> & -> & ->).
    rewrite <- (in_blocked_range_octets _ _ (digits_value dc) (digits_value dd)), Hr;
      [done|apply Oa|apply Ob|apply Oc|apply Od].
Qed.

Lemma C4_isUrlSafe_rejects_witness :
  isUrlSafe plain_URL (js "https://172.20.1.9/soup") = false.
Proof.
  apply (C4_isUrlSafe_rejects plain_URL (js "https://172.20.1.9/soup")).
  change (plain_URL (js "https://172.20.1.9/soup"))
    with (Some (mkURL (js "https:") [] [] (js "172.20.1.9"))).
  do 6 right. exists (js "172"), (js "20"), (js "1"), (js "9").
  repeat split; try (vm_compute; lia); vm_compute; (reflexivity || discriminate).
Defined.

(** ** The rate limiter *)

Lemma filter_all {A} (p : A -> bool) (l : list A) :
  Forall (fun x => p x = true) l -> List.filter p l = l.
Proof.
  induction 1 as [|x l Hx _ IH]; cbn; [done|]. by rewrite Hx, IH.
Qed.

Lemma filter_length_le {A} (p : A -> bool) (l : list A) :
  length (List.filter p l) <= length l.
Proof. induction l as [|x l IH]; cbn; [lia|]. destruct (p x); cbn; lia. Qed.

(** While fewer than the maximum are on record and all of them are within the
    window, every call is allowed and recorded. *)
Lemma calls_recorded (ip : jstring) (times : list Z) :
  forall (pre : list Z) (m : RateMap),
    m !! ip = Some pre ->
    length pre + length times <= RATE_LIMIT_MAX ->
    Forall (fun t0 => Forall (fun t => (t - t0 < RATE_LIMIT_WINDOW_MS)%Z) times) pre ->
    within_window times ->
    calls ip times m = (replicate (length times) true, <[ip := pre ++ times]> m).
Proof.
  induction times as [|t rest IH]; intros pre m Hm Hlen Hpre Hw.
  - cbn. rewrite app_nil_r. by rewrite insert_id.
  - cbn [calls]. unfold checkRateLimit. rewrite Hm.
    rewrite filter_all.
    2:{ eapply Forall_impl; [exact Hpre|]. intros t0 H0. apply Forall_inv in H0.
        unfold in_window. by apply Z.ltb_lt. }
    cbn [length] in Hlen.
    replace (RATE_LIMIT_MAX <=? length pre) with false
      by (symmetry; apply Nat.leb_gt; lia).
    inversion Hw as [|? ? Ht Hrest]; subst.
    rewrite (IH (pre ++ [t]) (<[ip := pre ++ [t]]> m)).
    + cbn [length replicate]. rewrite insert_insert_eq, <- app_assoc. reflexivity.
    + apply lookup_insert_eq.
    + rewrite length_app. cbn [length]. lia.
    + apply Forall_app. split.
      * eapply Forall_impl; [exact Hpre|]. intros t0 H0. by apply Forall_inv_tail in H0.
      * by apply Forall_cons.
    + done.
Qed.

Lemma calls_fresh (ip : jstring) (t : Z) (rest : list Z) (m : RateMap) :
  m !! ip = None ->
  S (length rest) <= RATE_LIMIT_MAX ->
  within_window (t :: rest) ->
  calls ip (t :: rest) m = (replicate (S (length rest)) true, <[ip := t :: rest]> m).
Proof.
  intros Hm Hlen Hw. cbn [calls]. unfold checkRateLimit at 1. rewrite Hm.
  inversion Hw as [|? ? Ht Hrest]; subst.
  rewrite (calls_recorded ip rest [t] (<[ip := [t]]> m)).
  - cbn [replicate app]. by rewrite insert_insert_eq.
  - apply lookup_insert_eq.
  - cbn [length]. lia.
  - by apply Forall_cons.
  - done.
Qed.

(** C5: with the maximum 10 and the window 60 s, the first ten calls of a
    client within one window are all allowed; the eleventh within that window
    is refused and records nothing (the ten timestamps stay as they are); a
    call made once the window has elapsed since the first call is allowed
    again. *)
Theorem C5_rate_limit (ip : jstring) (m : RateMap) (ts : list Z) (t1 t11 t12 : Z) :
  m !! ip = None ->
  length ts = 10 -> head ts = Some t1 ->
  within_window (ts ++ [t11]) ->
  (60000 <= t12 - t1)%Z ->
  RATE_LIMIT_MAX = 10 /\ RATE_LIMIT_WINDOW_MS = 60000%Z /\
  exists m10 m11,
    calls ip ts m = (replicate 10 true, m10)
    /\ checkRateLimit ip t11 m10 = (false, m11)
    /\ m10 !! ip = Some ts /\ m11 !! ip = Some ts
    /\ (checkRateLimit ip t12 m11).1 = true.
Proof.
  intros Hm Hlen Hhd Hw Ht12. split; [reflexivity|]. split; [reflexivity|].
  destruct ts as [|t rest]; [done|]. cbn in Hhd. injection Hhd as ->.
  cbn [length] in Hlen.
  assert (Hw' : within_window (t1 :: rest) /\
                Forall (fun t => (t11 - t < RATE_LIMIT_WINDOW_MS)%Z) (t1 :: rest)).
  { clear -Hw. unfold within_window in *. revert Hw. generalize (t1 :: rest). intros l.
    induction l as [|x l IH]; cbn; intros H.
    - split; constructor.
    - inversion H as [|? ? Hx Hl]; subst. apply Forall_app in Hx as [Hx1 Hx2].
      destruct (IH Hl) as [IH1 IH2]. split.
      + by constructor.
      + constructor; [by apply Forall_inv in Hx2|done]. }
  destruct Hw' as [Hw1 Hw2].
  exists (<[ip := t1 :: rest]> m), (<[ip := t1 :: rest]> (<[ip := t1 :: rest]> m)).
  assert (Hcall : calls ip (t1 :: rest) m = (replicate 10 true, <[ip := t1 :: rest]> m)).
  { rewrite calls_fresh; [|done|unfold RATE_LIMIT_MAX; lia|done]. by rewrite Hlen. }
  split; [exact Hcall|].
  assert (H11 : checkRateLimit ip t11 (<[ip := t1 :: rest]> m)
                = (false, <[ip := t1 :: rest]> (<[ip := t1 :: rest]> m))).
  { unfold checkRateLimit. rewrite lookup_insert_eq.
    rewrite filter_all.
    2:{ eapply Forall_impl; [exact Hw2|]. intros t0 H0. unfold in_window. by apply Z.ltb_lt. }
    cbn [length]. rewrite Hlen. reflexivity. }
  split; [exact H11|]. split; [apply lookup_insert_eq|]. split; [apply lookup_insert_eq|].
  unfold checkRateLimit. rewrite lookup_insert_eq. cbn [List.filter].
  replace (in_window t12 t1) with false
    by (symmetry; unfold in_window, RATE_LIMIT_WINDOW_MS; apply Z.ltb_ge; lia).
  pose proof (filter_length_le (in_window t12) rest) as Hle.
  replace (RATE_LIMIT_MAX <=? length (List.filter (in_window t12) rest)) with false
    by (symmetry; apply Nat.leb_gt; unfold RATE_LIMIT_MAX; lia).
  reflexivity.
Qed.

Lemma C5_rate_limit_witness :
  RATE_LIMIT_MAX = 10 /\ RATE_LIMIT_WINDOW_MS = 60000%Z /\
  exists m10 m11,
    calls (js "203.0.113.7") [0; 1; 2; 3; 4; 5; 6; 7; 8; 9]%Z ∅ = (replicate 10 true, m10)
    /\ checkRateLimit (js "203.0.113.7") 59999 m10 = (false, m11)
    /\ m10 !! js "203.0.113.7" = Some [0; 1; 2; 3; 4; 5; 6; 7; 8; 9]%Z
    /\ m11 !! js "203.0.113.7" = Some [0; 1; 2; 3; 4; 5; 6; 7; 8; 9]%Z
    /\ (checkRateLimit (js "203.0.113.7") 60000 m11).1 = true.
Proof.
  apply (C5_rate_limit (js "203.0.113.7") ∅ [0; 1; 2; 3; 4; 5; 6; 7; 8; 9]%Z 0 59999 60000).
  - apply lookup_empty.
  - reflexivity.
  - reflexivity.
  - unfold within_window, RATE_LIMIT_WINDOW_MS. cbn [app].
    repeat (constructor; [repeat (constructor; [lia|]); constructor|]). constructor.
  - lia.
Defined.

(** ** The cache *)

Section CacheFacts.
Context {V : Type}.
Implicit Types (m : list (jstring * V)) (k : jstring) (v : V).

Lemma jstring_eqb_refl k : jstring_eqb k k = true.
Proof. by apply jstring_eqb_eq. Qed.

Lemma map_get_absent k m : k ∉ map_keys m -> map_get k m = None.
Proof.
  induction m as [|[k' v'] m IH]; cbn; [done|]. intros H.
  apply not_elem_of_cons in H as [Hne Hm].
  destruct (jstring_eqb k' k) eqn:E; [by apply jstring_eqb_eq in E|by apply IH].
Qed.

Lemma map_set_absent k v m : k ∉ map_keys m -> map_set k v m = m ++ [(k, v)].
Proof.
  induction m as [|[k' v'] m IH]; cbn; [done|]. intros H.
  apply not_elem_of_cons in H as [Hne Hm].
  destruct (jstring_eqb k' k) eqn:E; [by apply jstring_eqb_eq in E|by rewrite IH].
Qed.

Lemma map_get_set k v m : map_get k (map_set k v m) = Some v.
Proof.
  induction m as [|[k' v'] m IH]; cbn.
  - by rewrite jstring_eqb_refl.
  - destruct (jstring_eqb k' k) eqn:E; cbn; by rewrite E.
Qed.
End CacheFacts.

Lemma setCache_room url d t (c : Cache) :
  length c < CACHE_MAX_ENTRIES -> url ∉ map_keys c ->
  setCache url d t c = c ++ [(url, mkEntry d t)].
Proof.
  intros Hl Hk. unfold setCache.
  replace (CACHE_MAX_ENTRIES <=? length c) with false by (symmetry; apply Nat.leb_gt; lia).
  by apply map_set_absent.
Qed.

(** Below the capacity, distinct URLs are stored in the order of insertion. *)
Lemma inserts_room (l : list (jstring * Recipe * Z)) :
  forall c : Cache,
    length c + length l <= CACHE_MAX_ENTRIES ->
    NoDup (map_keys c ++ inserted_urls l) ->
    inserts l c = c ++ entries_of l.
Proof.
  induction l as [|[[url d] t] l IH]; intros c Hlen Hnd.
  - cbn. by rewrite app_nil_r.
  - cbn in Hlen, Hnd. change (inserts ((url, d, t) :: l) c) with (inserts l (setCache url d t c)).
    cbn [entries_of List.map]. fold (entries_of l).
    rewrite setCache_room; [|lia|].
    2:{ apply NoDup_app in Hnd as (_ & Hd & _). intros Hin. apply (Hd _ Hin). left. }
    rewrite IH.
    + by rewrite <- app_assoc.
    + rewrite length_app. cbn. lia.
    + unfold map_keys in *. rewrite List.map_app. cbn. rewrite <- app_assoc. exact Hnd.
Qed.

Lemma map_keys_entries_of (l : list (jstring * Recipe * Z)) :
  map_keys (entries_of l) = inserted_urls l.
Proof.
  unfold map_keys, entries_of, inserted_urls. rewrite List.map_map.
  apply List.map_ext. by intros [[? ?] ?].
Qed.

Lemma inserted_urls_take n (l : list (jstring * Recipe * Z)) :
  inserted_urls (take n l) = take n (inserted_urls l).
Proof.
  revert n. induction l as [|x l IH]; intros [|n]; cbn; try done. by rewrite <- IH.
Qed.

Lemma map_get_entries_of (l : list (jstring * Recipe * Z)) u d t :
  NoDup (inserted_urls l) -> In (u, d, t) l ->
  map_get u (entries_of l) = Some (mkEntry d t).
Proof.
  induction l as [|[[u0 d0] t0] l IH]; [done|]. cbn [inserted_urls entries_of List.map map_get].
  fold (inserted_urls l). fold (entries_of l).
  intros [Hni Hnd]%NoDup_cons [Hx|Hin].
  - injection Hx as -> -> ->. by rewrite jstring_eqb_refl.
  - destruct (jstring_eqb u0 u) eqn:E; [|by apply IH].
    apply jstring_eqb_eq in E as ->. exfalso. apply Hni.
    apply list_elem_of_In. unfold inserted_urls. apply List.in_map_iff.
    by exists (u, d, t).
Qed.

(** The sample URLs differ in their last code unit, so no two of them are
    equal. *)
Lemma numbered_url_inj (m n : nat) : numbered_url m = numbered_url n -> m = n.
Proof.
  unfold numbered_url. intros H. apply List.app_inv_head in H.
  injection H as H. by apply Nat2N.inj.
Qed.

Lemma many_inserts_NoDup : NoDup (inserted_urls many_inserts).
Proof.
  unfold inserted_urls, many_inserts. rewrite List.map_map. cbv beta iota.
  apply (@NoDup_fmap_2 _ _ numbered_url numbered_url_inj). apply NoDup_seq.
Qed.

Lemma stored_urls_NoDup : NoDup (map_keys (entries_of (List.tl many_inserts))).
Proof.
  rewrite map_keys_entries_of.
  change (NoDup (List.tl (inserted_urls many_inserts))).
  pose proof many_inserts_NoDup as H.
  destruct (inserted_urls many_inserts) as [|u us]; [done|].
  by apply NoDup_cons in H as [_ H].
Qed.

Lemma full_urls_NoDup :
  NoDup (map_keys ((numbered_url 0, mkEntry tea_recipe 0) :: entries_of (List.tl many_inserts))).
Proof.
  change (NoDup (map_keys (entries_of many_inserts))).
  rewrite map_keys_entries_of. exact many_inserts_NoDup.
Qed.

(** C6: the capacity is 200; when 201 distinct URLs are inserted into an empty
    cache, the first is stored by the first 200 insertions and evicted by the
    201st: afterwards the cache holds exactly the other 200 entries, in the
    order of insertion, the first URL is absent and [getCached] answers null
    for it, while every other URL is still held with its recipe.  An entry of
    any cache read more than the time to live after its insertion is deleted
    and answered with null, and read at most that long after it is answered
    with its recipe. *)
Theorem C6_cache (l : list (jstring * Recipe * Z)) (first : jstring) (d1 : Recipe)
        (t1 now : Z) (c : Cache) (url : jstring) (e : CacheEntry) (now' : Z) :
  length l = 201 -> NoDup (inserted_urls l) -> head l = Some (first, d1, t1) ->
  map_get url c = Some e -> (now' - timestamp e > CACHE_TTL_MS)%Z ->
  CACHE_MAX_ENTRIES = 200
  /\ map_get first (inserts (take 200 l) []) = Some (mkEntry d1 t1)
  /\ inserts l [] = entries_of (List.tl l)
  /\ (first ∉ map_keys (inserts l []))
  /\ (getCached first now (inserts l [])).1 = None
  /\ (forall u d t, In (u, d, t) (List.tl l) ->
        map_get u (inserts l []) = Some (mkEntry d t))
  /\ getCached url now' c = (None, map_delete url c)
  /\ (forall earlier, (earlier - timestamp e <= CACHE_TTL_MS)%Z ->
        getCached url earlier c = (Some (data e), c)).
Proof.
  intros Hlen Hnd Hhd Hget Httl. split; [reflexivity|].
  destruct l as [|x0 rest]; [done|]. cbn in Hhd. injection Hhd as ->.
  cbn [length] in Hlen. cbn [List.tl].
  assert (Hnd' : (first ∉ inserted_urls rest) /\ NoDup (inserted_urls rest))
    by (by apply NoDup_cons in Hnd).
  destruct Hnd' as [Hfirst Hrest].
  assert (Hstored : map_get first (inserts (take 200 ((first, d1, t1) :: rest)) [])
                    = Some (mkEntry d1 t1)).
  { rewrite (inserts_room _ []).
    - cbn [take entries_of List.map app map_get]. by rewrite jstring_eqb_refl.
    - rewrite length_take. unfold CACHE_MAX_ENTRIES. cbn [length]. lia.
    - cbn [map_keys List.map app]. rewrite inserted_urls_take.
      eapply sublist_NoDup; [exact Hnd|apply sublist_take]. }
  assert (Hall : inserts ((first, d1, t1) :: rest) [] = entries_of rest).
  { destruct (exists_last (l := rest)) as (mid & [[u201 d201] t201] & ->);
      [by destruct rest|].
    rewrite length_app in Hlen. cbn in Hlen.
    change ((first, d1, t1) :: mid ++ [(u201, d201, t201)])
      with (((first, d1, t1) :: mid) ++ [(u201, d201, t201)]).
    assert (Hsnoc : inserts (((first, d1, t1) :: mid) ++ [(u201, d201, t201)]) []
                    = setCache u201 d201 t201 (inserts ((first, d1, t1) :: mid) []))
      by (unfold inserts; by rewrite fold_left_app).
    rewrite Hsnoc.
    unfold inserted_urls in Hnd, Hrest. cbn [List.map] in Hnd.
    rewrite List.map_app in Hnd, Hrest. cbn [List.map] in Hnd, Hrest.
    fold (inserted_urls mid) in Hnd, Hrest.
    rewrite (inserts_room ((first, d1, t1) :: mid) []).
    - cbn [app]. unfold setCache.
      replace (CACHE_MAX_ENTRIES <=? length (entries_of ((first, d1, t1) :: mid))) with true
        by (symmetry; apply Nat.leb_le; unfold entries_of, CACHE_MAX_ENTRIES;
            rewrite length_map; cbn; lia).
      cbn [entries_of List.map map_keys fst map_delete]. rewrite jstring_eqb_refl.
      fold (entries_of mid). rewrite map_set_absent.
      + unfold entries_of. rewrite List.map_app. reflexivity.
      + rewrite map_keys_entries_of. apply NoDup_app in Hrest as (_ & Hd & _).
        intros Hin. apply (Hd _ Hin). left.
    - unfold CACHE_MAX_ENTRIES. cbn. lia.
    - cbn [map_keys List.map app]. change (?x :: ?l ++ ?k) with ((x :: l) ++ k) in Hnd.
      by apply NoDup_app in Hnd as (? & _ & _). }
  split; [exact Hstored|]. split; [exact Hall|]. rewrite Hall.
  assert (Hgone : first ∉ map_keys (entries_of rest)) by (by rewrite map_keys_entries_of).
  split; [exact Hgone|]. split; [unfold getCached; by rewrite map_get_absent|].
  split; [intros u d t Hin; by apply map_get_entries_of|].
  unfold getCached. rewrite Hget. split.
  - by replace (now' - timestamp e >? CACHE_TTL_MS)%Z with true
      by (symmetry; apply Z.gtb_lt; lia).
  - intros earlier He.
    by replace (earlier - timestamp e >? CACHE_TTL_MS)%Z with false
      by (symmetry; rewrite Z.gtb_ltb; apply Z.ltb_ge; lia).
Qed.

Lemma C6_cache_witness :
  CACHE_MAX_ENTRIES = 200
  /\ map_get (numbered_url 0) (inserts (take 200 many_inserts) []) = Some (mkEntry tea_recipe 0)
  /\ inserts many_inserts [] = entries_of (List.tl many_inserts)
  /\ (numbered_url 0 ∉ map_keys (inserts many_inserts []))
  /\ (getCached (numbered_url 0) 201 (inserts many_inserts [])).1 = None
  /\ (forall u d t, In (u, d, t) (List.tl many_inserts) ->
        map_get u (inserts many_inserts []) = Some (mkEntry d t))
  /\ getCached (numbered_url 7) 3600008 (entries_of (List.tl many_inserts))
     = (None, map_delete (numbered_url 7) (entries_of (List.tl many_inserts)))
  /\ (forall earlier, (earlier - timestamp (mkEntry tea_recipe 7) <= CACHE_TTL_MS)%Z ->
        getCached (numbered_url 7) earlier (entries_of (List.tl many_inserts))
        = (Some (data (mkEntry tea_recipe 7)), entries_of (List.tl many_inserts))).
Proof.
  apply (C6_cache many_inserts (numbered_url 0) tea_recipe 0 201
           (entries_of (List.tl many_inserts)) (numbered_url 7) (mkEntry tea_recipe 7) 3600008).
  - reflexivity.
  - exact many_inserts_NoDup.
  - reflexivity.
  - vm_compute. reflexivity.
  - reflexivity.
Defined.

(** ** Recipe resolution *)

Lemma isRecipe_readable (v : value) :
  isRecipe v = if readable v then Ok (typed_Recipe v) else Throw.
Proof. by destruct v. Qed.

Lemma typed_Recipe_truthy (v : value) : typed_Recipe v = true -> truthy v = true.
Proof. by destruct v. Qed.

Lemma first_Recipe_truthy (items : list value) (r : value) :
  first_Recipe items = Some r -> truthy r = true.
Proof.
  unfold first_Recipe. intros H. apply List.find_some in H as [_ H].
  by apply typed_Recipe_truthy.
Qed.

Lemma find_Recipe_scan (items : list value) :
  find_Recipe items
  = if scan_ok items
    then Ok (match first_Recipe items with Some r => r | None => VUndef end)
    else Throw.
Proof.
  induction items as [|x items IH]; [done|].
  cbn [find_Recipe scan_ok first_Recipe List.find]. rewrite isRecipe_readable.
  destruct (readable x); [|done]. cbn [bind andb].
  destruct (typed_Recipe x); [done|]. cbn [orb]. exact IH.
Qed.

(** The loop of the handler against the resolution of the specification: they agree
    exactly when no [null] is read before a Recipe is found, and otherwise the
    loop raises a [TypeError]. *)
Lemma findRecipe_resolve (cands : list value) :
  forall recipe, truthy recipe = false ->
    found (findRecipe recipe cands)
    = if scan_prefix_ok cands then Ok (resolve cands) else Throw.
Proof.
  induction cands as [|cand rest IH]; intros recipe Hr.
  - cbn. by rewrite Hr.
  - cbn [findRecipe scan_prefix_ok resolve]. rewrite isRecipe_readable.
    unfold scannable, candidate_Recipe, branch_a.
    destruct (readable cand) eqn:Hrd; [|done]. cbn [bind andb].
    destruct (typed_Recipe cand) eqn:Ht.
    { cbn. by rewrite (typed_Recipe_truthy _ Ht). }
    cbn [orb].
    destruct cand as [| |b|x|str|items|fs]; try done;
      cbn [branch_b branch_c get bind isArray andb field]; try (by apply IH).
    + rewrite find_Recipe_scan. destruct (scan_ok items); [|done]. cbn [bind].
      destruct (first_Recipe items) as [r|] eqn:Hf.
      * rewrite (first_Recipe_truthy _ _ Hf). cbn. by rewrite (first_Recipe_truthy _ _ Hf).
      * cbn [truthy]. by apply IH.
    + destruct (field (js "@graph") fs) as [| |b|x|str|items|gs]; try (by apply IH).
      rewrite find_Recipe_scan. destruct (scan_ok items); [|done]. cbn [bind].
      destruct (first_Recipe items) as [r|] eqn:Hf.
      * rewrite (first_Recipe_truthy _ _ Hf). cbn. by rewrite (first_Recipe_truthy _ _ Hf).
      * cbn [truthy]. by apply IH.
Qed.




(** ** The handler before the fetch *)

Lemma checkRateLimit_allowed (ip : jstring) (now : Z) (m m' : RateMap) :
  checkRateLimit ip now m = (true, m') ->
  exists earlier, m' !! ip = Some (earlier ++ [now]).
Proof.
  unfold checkRateLimit. destruct (m !! ip) as [ts|].
  - destruct (RATE_LIMIT_MAX <=? _); [discriminate|]. intros [= <-].
    eexists. apply lookup_insert_eq.
  - intros [= <-]. exists []. apply lookup_insert_eq.
Qed.

(** C9 (as stated, refuted): a GET request is rejected with 405 before the
    fetch stage and the rate limiter has not been called: the table is
    unchanged and holds no record of the client. *)
Lemma C9_counterexample :
  beforeFetch plain_URL get_request noon empty_state
    = (inl (reject 405 "Method not allowed"), empty_state)
  /\ rateLimitMap empty_state !! clientIp get_request = None.
Proof. split; [vm_compute; reflexivity|]. apply lookup_empty. Qed.

(** C9 (amended): a request rejected with 400 before the fetch stage (missing
    URL, unsafe URL, disallowed domain) has consumed one rate-limit slot:
    [checkRateLimit] was called for the client, allowed the request and
    recorded the reading of the clock as the client's last timestamp, and the
    cache is untouched.  A rejection of the method (405) is decided before
    the rate limiter is called and leaves the table as it was. *)
Theorem C9_rejections (URL_parse : jstring -> option URL) (req : Request) (clk : Clock)
        (st st' : State) (resp : Response) :
  beforeFetch URL_parse req clk st = (inl resp, st') ->
  (status resp = 400 ->
     checkRateLimit (clientIp req) (t_rate clk) (rateLimitMap st) = (true, rateLimitMap st')
     /\ (exists earlier,
           rateLimitMap st' !! clientIp req = Some (earlier ++ [t_rate clk]))
     /\ recipeCache st' = recipeCache st)
  /\ (status resp = 405 -> st' = st).
Proof.
  unfold beforeFetch.
  destruct (jstring_eqb (method req) (js "OPTIONS")); [by intros [= <- <-]|].
  destruct (negb (jstring_eqb (method req) (js "POST"))); [by intros [= <- <-]|].
  destruct (checkRateLimit (clientIp req) (t_rate clk) (rateLimitMap st))
    as [allowed rl] eqn:Hrl.
  destruct allowed; cbn [negb]; [|by intros [= <- <-]].
  pose proof (checkRateLimit_allowed _ _ _ _ Hrl) as Hrec.
  destruct (req_body req) as [|bu]; [discriminate|].
  destruct (nonempty (body_url req)) as [url|]; [|by intros [= <- <-]].
  destruct (negb (isUrlSafe URL_parse url)); [by intros [= <- <-]|].
  destruct (negb (isDomainAllowed URL_parse url)); [by intros [= <- <-]|].
  cbn [recipeCache].
  destruct (getCached url (t_lookup clk) (recipeCache st)) as [[r|] c]; [|discriminate].
  by intros [= <- <-].
Qed.

Lemma C9_rejections_witness :
  (status (reject 400 "URL is required") = 400 ->
     checkRateLimit (clientIp post_without_url) (t_rate noon) (rateLimitMap empty_state)
     = (true, rateLimitMap (mkState [] (<[js "203.0.113.7" := [43200000%Z]]> ∅)))
     /\ (exists earlier,
           rateLimitMap (mkState [] (<[js "203.0.113.7" := [43200000%Z]]> ∅))
             !! clientIp post_without_url = Some (earlier ++ [t_rate noon]))
     /\ recipeCache (mkState [] (<[js "203.0.113.7" := [43200000%Z]]> ∅))
        = recipeCache empty_state)
  /\ (status (reject 400 "URL is required") = 405 ->
      mkState [] (<[js "203.0.113.7" := [43200000%Z]]> ∅) = empty_state).
Proof.
  apply (C9_rejections plain_URL post_without_url noon empty_state). reflexivity.
Defined.

(** ** The two variants of the handler *)

(** C10: the JSON-LD discovery and the Recipe resolution of the two variants
    of the handler agree: on every page both collect the same candidates and
    both resolve the same Recipe, or both none, or both raise. *)
Theorem C10_variants_agree (JSON_parse : jstring -> option value) (html : jstring) :
  Variant2.jsonLdMatches JSON_parse html = jsonLdMatches JSON_parse html
  /\ (forall recipe matches,
        Variant2.findRecipe recipe matches = findRecipe recipe matches)
  /\ found (Variant2.findRecipe VNull (Variant2.jsonLdMatches JSON_parse html))
     = found (findRecipe VNull (jsonLdMatches JSON_parse html)).
Proof.
  assert (Hc : forall fuel last,
             Variant2.collect JSON_parse html fuel last = collect JSON_parse html fuel last).
  { induction fuel as [|fuel IH]; intros last; [done|].
    cbn [Variant2.collect collect].
    change Variant2.jsonLdRegex with jsonLdRegex.
    destruct (exec true html jsonLdRegex last) as [[[i j] cs]|]; [|done].
    by rewrite IH. }
  assert (Hf : forall matches recipe,
             Variant2.findRecipe recipe matches = findRecipe recipe matches).
  { induction matches as [|data rest IH]; intros recipe; [done|].
    cbn [Variant2.findRecipe findRecipe].
    destruct (isRecipe data) as [[|]|]; cbn [bind]; [done| |done].
    destruct data; cbn [bind isArray andb get]; try apply IH; done. }
  split; [apply Hc|]. split; [intros; apply Hf|].
  unfold Variant2.jsonLdMatches, jsonLdMatches. by rewrite Hc, Hf.
Qed.

(** ** The recipe that is returned *)

Lemma sanitizeString_nil : sanitizeString [] = [].
Proof. reflexivity. Qed.

(** The guards [if (recipe.name)] and [if (recipe.description)] skip values
    that [sanitizeText] would leave unchanged anyway. *)
Lemma sanitize_guarded (v : value) :
  (if truthy v then sanitizeText v else v) = sanitizeText v.
Proof.
  destruct v as [| |b|x|s|items|fs]; cbn; try done.
  - by destruct b.
  - by destruct x.
  - destruct s; [|done]. cbn [negb sanitizeText]. by rewrite sanitizeString_nil.
Qed.

Lemma validateImage_cases (URL_parse : jstring -> option URL) (img : value) :
  (validateImage URL_parse img = img \/ validateImage URL_parse img = VNull)
  /\ forall s, validateImage URL_parse img = VStr s -> s <> [] ->
       exists u, URL_parse s = Some u
                 /\ (protocol u = js "http:" \/ protocol u = js "https:").
Proof.
  destruct img as [| |b|x|s|items|fs]; cbn [validateImage]; try (split; [by left|done]).
  destruct (truthy (VStr s)) eqn:Ht.
  - destruct (URL_parse s) as [u|] eqn:Hu.
    + destruct (negb (jstring_eqb (protocol u) (js "http:"))
                && negb (jstring_eqb (protocol u) (js "https:"))) eqn:Hp.
      * split; [by right|done].
      * split; [by left|]. intros s' [= <-] _. exists u. split; [done|].
        apply andb_false_iff in Hp as [Hp|Hp]; apply negb_false_iff, jstring_eqb_eq in Hp; auto.
    + split; [by right|done].
  - split; [by left|]. intros s' [= <-] Hne. cbn in Ht.
    apply negb_false_iff, jstring_eqb_eq in Ht. done.
Qed.

(** C1 (the code at a failing input): for the Recipe object named
    [<iframe src=x>Soup], with the yield [<script>4</script>] and an array of
    one ImageObject as its image, the recipe that is built has the sanitised
    name [Soup], but its [servings] is the yield as it came, script tags
    included, although [sanitizeText] would strip them, and its [image] is the
    ImageObject, neither null nor a string. *)
Theorem C1_unsanitised_servings (URL_parse : jstring -> option URL) :
  buildResult URL_parse photo_recipe
    = Ok {| name := VStr (js "Soup"); description := VStr [];
            ingredients := []; instructions := [];
            servings := VStr (js "<script>4</script>");
            prepTime := VNull; cookTime := VNull;
            image := VObj [ (js "@type", VStr (js "ImageObject"));
                            (js "url", VStr (js "https://www.allrecipes.com/soup.jpg")) ] |}
  /\ has_denylisted_tag (js "<script>4</script>") = true
  /\ sanitizeText (VStr (js "<script>4</script>")) = VStr (js "4")
  /\ (forall r, buildResult URL_parse photo_recipe = Ok r ->
        ~ image_as_claimed URL_parse r).
Proof.
  assert (H : buildResult URL_parse photo_recipe
    = Ok {| name := VStr (js "Soup"); description := VStr [];
            ingredients := []; instructions := [];
            servings := VStr (js "<script>4</script>");
            prepTime := VNull; cookTime := VNull;
            image := VObj [ (js "@type", VStr (js "ImageObject"));
                            (js "url", VStr (js "https://www.allrecipes.com/soup.jpg")) ] |})
    by (vm_compute; reflexivity).
  split; [exact H|]. split; [vm_compute; reflexivity|]. split; [vm_compute; reflexivity|].
  intros r Hr. rewrite H in Hr. injection Hr as <-.
  intros [Hi|(s & u & Hi & _)]; cbn in Hi; discriminate.
Qed.

(** Every recipe the handler answers with after a fetch is built by
    [buildResult] from a truthy value, and it is what is stored in the cache
    under the URL. *)
Lemma afterFetch_recipe (URL_parse : jstring -> option URL)
      (JSON_parse : jstring -> option value) (url : jstring) (net : Fetched)
      (clk : Clock) (st st' : State) (resp : Response) (r : Recipe) :
  afterFetch URL_parse JSON_parse url net clk st = (resp, st') ->
  body resp = RecipeBody r ->
  (exists recipe, truthy recipe = true /\ buildResult URL_parse recipe = Ok r)
  /\ status resp = 200
  /\ map_get url (recipeCache st') = Some (mkEntry r (t_store clk)).
Proof.
  unfold afterFetch. destruct net as [ok html| |]; try (intros [= <- <-]; discriminate).
  destruct (negb ok); [intros [= <- <-]; discriminate|].
  destruct (_ <? _)%Z; [intros [= <- <-]; discriminate|].
  destruct (findRecipe VNull _) as [recipe|]; [|intros [= <- <-]; discriminate].
  destruct (truthy recipe) eqn:Ht; cbn [negb]; [|intros [= <- <-]; discriminate].
  destruct (buildResult URL_parse recipe) as [result|] eqn:Hb;
    [|intros [= <- <-]; discriminate].
  intros [= <- <-]. cbn [body status recipeCache]. intros [= <-].
  split; [eauto|]. split; [done|]. unfold setCache. apply map_get_set.
Qed.

(** ** Further facts about the model *)

(** The rounds given to the discovery loop are enough: a match of the JSON-LD
    pattern is never empty, so any number of rounds above the positions left
    gives the same candidates. *)
Lemma collect_fuel (JSON_parse : jstring -> option value) (html : jstring) :
  forall f1 f2 last,
    length html < f1 + last -> length html < f2 + last ->
    collect JSON_parse html f1 last = collect JSON_parse html f2 last.
Proof.
  induction f1 as [|f1 IH]; intros f2 last H1 H2.
  - destruct f2 as [|f2]; [done|]. cbn [collect]. by rewrite exec_past_end by lia.
  - cbn [collect]. destruct f2 as [|f2].
    + by rewrite exec_past_end by lia.
    + cbn [collect].
      destruct (exec true html jsonLdRegex last) as [[[i j] cs]|] eqn:E; [|done].
      apply (exec_progress _ _ (chr "<")) in E as [Hi Hj]; [|reflexivity].
      rewrite (IH f2 j) by lia. reflexivity.
Qed.

(** A sweep at an earlier reading of the clock does not change the answer of
    the rate limiter. *)
Lemma sweep_checkRateLimit (ip : jstring) (swept now : Z) (m : RateMap) :
  (swept <= now)%Z ->
  (checkRateLimit ip now (sweep swept m)).1 = (checkRateLimit ip now m).1.
Proof.
  intros Hle. unfold checkRateLimit, sweep. rewrite lookup_omap.
  destruct (m !! ip) as [ts|]; cbn [option_bind mbind]; [|done].
  assert (Hf : List.filter (in_window now) (List.filter (in_window swept) ts)
               = List.filter (in_window now) ts).
  { induction ts as [|t ts IH]; [done|]. cbn [List.filter].
    destruct (in_window swept t) eqn:Es, (in_window now t) eqn:En; cbn [List.filter];
      rewrite ?En, ?IH; try done.
    unfold in_window in *. apply Z.ltb_lt in En. apply Z.ltb_ge in Es. lia. }
  destruct (List.filter (in_window swept) ts) as [|t0 kept] eqn:Ek.
  - cbn. cbn in Hf. rewrite <- Hf. reflexivity.
  - cbn [option_bind mbind]. rewrite Hf.
    by destruct (RATE_LIMIT_MAX <=? _).
Qed.

(** The end-to-end example of the specification, from the Recipe object on. *)
Example tea_end_to_end (URL_parse : jstring -> option URL) :
  buildResult URL_parse tea_object = Ok tea_recipe.
Proof. reflexivity. Qed.

(** * Further properties of the code *)

(** ** The cache as a bounded first-in first-out store *)

Section MapFacts.
Context {V : Type}.
Implicit Types (m : list (jstring * V)) (k : jstring) (v : V).

Lemma map_keys_set_present k v m :
  k ∈ map_keys m -> map_keys (map_set k v m) = map_keys m.
Proof.
  induction m as [|[k' v'] m IH]; cbn; [by intros ?%elem_of_nil|].
  intros H. destruct (jstring_eqb k' k) eqn:E; [done|]. cbn. f_equal. apply IH.
  apply elem_of_cons in H as [->|H]; [|done]. by rewrite jstring_eqb_refl in E.
Qed.

Lemma map_keys_delete_sublist k m : map_keys (map_delete k m) `sublist_of` map_keys m.
Proof.
  induction m as [|[k' v'] m IH]; cbn; [done|].
  destruct (jstring_eqb k' k); cbn; [by apply sublist_cons|by apply sublist_skip].
Qed.

Lemma map_get_delete_ne k k' m : k <> k' -> map_get k' (map_delete k m) = map_get k' m.
Proof.
  intros Hne. induction m as [|[k0 v0] m IH]; cbn; [done|].
  destruct (jstring_eqb k0 k) eqn:E.
  - apply jstring_eqb_eq in E as ->.
    destruct (jstring_eqb k k') eqn:E'; [by apply jstring_eqb_eq in E'|done].
  - cbn. by rewrite IH.
Qed.

Lemma map_get_Some_key k v m : map_get k m = Some v -> k ∈ map_keys m.
Proof.
  induction m as [|[k0 v0] m IH]; cbn; [done|].
  destruct (jstring_eqb k0 k) eqn:E.
  - apply jstring_eqb_eq in E as ->. intros _. left.
  - intros H. right. by apply IH.
Qed.

Lemma map_delete_length k m : length (map_delete k m) <= length m.
Proof.
  induction m as [|[k0 v0] m IH]; cbn; [lia|]. destruct (jstring_eqb k0 k); cbn; lia.
Qed.

Lemma map_set_length k v m : length (map_set k v m) <= S (length m).
Proof.
  induction m as [|[k0 v0] m IH]; cbn; [lia|]. destruct (jstring_eqb k0 k); cbn; lia.
Qed.

Lemma map_set_NoDup k v m : NoDup (map_keys m) -> NoDup (map_keys (map_set k v m)).
Proof.
  intros H. destruct (decide (k ∈ map_keys m)) as [Hin|Hni].
  - by rewrite map_keys_set_present.
  - rewrite map_set_absent by done. unfold map_keys. rewrite List.map_app. cbn.
    apply NoDup_app. split; [done|]. split; [|apply NoDup_singleton].
    intros x Hx ->%list_elem_of_singleton. done.
Qed.
End MapFacts.

(** X1: the cache never exceeds its capacity and never holds a URL twice:
    [setCache] and [getCached] keep both. *)
Theorem cache_invariant (c : Cache) (url : jstring) (d : Recipe) (now : Z) :
  cache_ok c ->
  cache_ok (setCache url d now c) /\ cache_ok (getCached url now c).2.
Proof.
  intros [Hnd Hlen]. split.
  - unfold setCache. destruct (CACHE_MAX_ENTRIES <=? length c) eqn:E.
    + destruct c as [|[oldest e] rest]; [cbn in E; discriminate|].
      cbn [map_keys List.map fst map_delete]. rewrite jstring_eqb_refl.
      cbn in Hnd, Hlen. apply NoDup_cons in Hnd as [_ Hnd]. split.
      * by apply map_set_NoDup.
      * pose proof (map_set_length url (mkEntry d now) rest). lia.
    + apply Nat.leb_gt in E. split.
      * by apply map_set_NoDup.
      * pose proof (map_set_length url (mkEntry d now) c). lia.
  - unfold getCached. destruct (map_get url c) as [e|]; [|by split].
    destruct (now - timestamp e >? CACHE_TTL_MS)%Z; [|by split]. cbn [snd]. split.
    + exact (sublist_NoDup _ _ Hnd (map_keys_delete_sublist url c)).
    + pose proof (map_delete_length url c). lia.
Qed.

Lemma cache_invariant_witness :
  cache_ok (setCache (numbered_url 7) tea_recipe 3600008 (entries_of (List.tl many_inserts)))
  /\ cache_ok (getCached (numbered_url 7) 3600008 (entries_of (List.tl many_inserts))).2.
Proof.
  apply (cache_invariant (entries_of (List.tl many_inserts)) (numbered_url 7)
           tea_recipe 3600008).
  split.
  - exact stored_urls_NoDup.
  - vm_compute. lia.
Defined.

(** X2: a recipe stored at [t] is read back, whatever the cache held, by every
    read at most the time to live later, the read exactly one hour later
    included; the read leaves the cache as it is. *)
Theorem cache_round_trip (c : Cache) (url : jstring) (d : Recipe) (t now : Z) :
  (now - t <= CACHE_TTL_MS)%Z ->
  getCached url now (setCache url d t c) = (Some d, setCache url d t c).
Proof.
  intros H. unfold getCached at 1.
  assert (Hg : map_get url (setCache url d t c) = Some (mkEntry d t))
    by (unfold setCache; apply map_get_set).
  rewrite Hg. cbn [timestamp data].
  replace (now - t >? CACHE_TTL_MS)%Z with false; [done|].
  symmetry. rewrite Z.gtb_ltb. apply Z.ltb_ge. lia.
Qed.

Lemma cache_round_trip_witness :
  getCached (numbered_url 1) 3600005 (setCache (numbered_url 1) tea_recipe 5 [])
  = (Some tea_recipe, setCache (numbered_url 1) tea_recipe 5 []).
Proof.
  apply (cache_round_trip [] (numbered_url 1) tea_recipe 5 3600005).
  unfold CACHE_TTL_MS. lia.
Defined.

(** X3: storing a new URL in a full cache drops exactly the entry inserted
    first and appends the new one: every other entry keeps its place. *)
Theorem cache_full_insert (oldest url : jstring) (e : CacheEntry) (rest : Cache)
        (d : Recipe) (t : Z) :
  CACHE_MAX_ENTRIES <= S (length rest) ->
  url ∉ map_keys rest ->
  setCache url d t ((oldest, e) :: rest) = rest ++ [(url, mkEntry d t)].
Proof.
  intros Hfull Hni. unfold setCache. cbn [length].
  replace (CACHE_MAX_ENTRIES <=? S (length rest)) with true
    by (symmetry; by apply Nat.leb_le).
  cbn [map_keys List.map fst map_delete]. rewrite jstring_eqb_refl.
  by apply map_set_absent.
Qed.

Lemma cache_full_insert_witness :
  setCache (numbered_url 300) tea_recipe 0
           ((numbered_url 0, mkEntry tea_recipe 0) :: entries_of (List.tl many_inserts))
  = entries_of (List.tl many_inserts) ++ [(numbered_url 300, mkEntry tea_recipe 0)].
Proof.
  apply (cache_full_insert (numbered_url 0) (numbered_url 300)).
  - vm_compute. lia.
  - refine (@bool_decide_unpack (_ ∉ _) _ _). vm_compute. exact I.
Defined.

(** X4: storing again a URL that a full cache already holds still evicts the
    oldest entry, although no room is needed: the cache shrinks by one, the
    stored URL keeps its place and gets the new recipe and timestamp. *)
Theorem cache_full_overwrite (oldest url : jstring) (e : CacheEntry) (rest : Cache)
        (d : Recipe) (t : Z) :
  CACHE_MAX_ENTRIES <= S (length rest) ->
  NoDup (map_keys ((oldest, e) :: rest)) ->
  url ∈ map_keys rest ->
  map_keys (setCache url d t ((oldest, e) :: rest)) = map_keys rest
  /\ map_get oldest (setCache url d t ((oldest, e) :: rest)) = None
  /\ map_get url (setCache url d t ((oldest, e) :: rest)) = Some (mkEntry d t).
Proof.
  intros Hfull Hnd Hin.
  assert (Hs : setCache url d t ((oldest, e) :: rest) = map_set url (mkEntry d t) rest).
  { unfold setCache. cbn [length].
    replace (CACHE_MAX_ENTRIES <=? S (length rest)) with true
      by (symmetry; by apply Nat.leb_le).
    cbn [map_keys List.map fst map_delete]. by rewrite jstring_eqb_refl. }
  rewrite Hs. split; [by apply map_keys_set_present|]. split; [|apply map_get_set].
  apply map_get_absent. rewrite map_keys_set_present by done.
  cbn in Hnd. by apply NoDup_cons in Hnd as [? _].
Qed.

Lemma cache_full_overwrite_witness :
  map_keys (setCache (numbered_url 7) tea_recipe 9
              ((numbered_url 0, mkEntry tea_recipe 0) :: entries_of (List.tl many_inserts)))
  = map_keys (entries_of (List.tl many_inserts))
  /\ map_get (numbered_url 0)
       (setCache (numbered_url 7) tea_recipe 9
          ((numbered_url 0, mkEntry tea_recipe 0) :: entries_of (List.tl many_inserts)))
     = None
  /\ map_get (numbered_url 7)
       (setCache (numbered_url 7) tea_recipe 9
          ((numbered_url 0, mkEntry tea_recipe 0) :: entries_of (List.tl many_inserts)))
     = Some (mkEntry tea_recipe 9).
Proof.
  apply (cache_full_overwrite (numbered_url 0) (numbered_url 7)).
  - vm_compute. lia.
  - exact full_urls_NoDup.
  - refine (@bool_decide_unpack (_ ∈ _) _ _). vm_compute. exact I.
Defined.

(** X5: reading one URL never changes what the cache answers for another
    URL, and a read that finds a live entry leaves the whole cache, order
    included, as it is (eviction goes by insertion, not by last access). *)
Theorem cache_read_isolated (c : Cache) (url other : jstring) (now : Z) :
  url <> other ->
  map_get other (getCached url now c).2 = map_get other c
  /\ (forall r, (getCached url now c).1 = Some r -> (getCached url now c).2 = c).
Proof.
  intros Hne. unfold getCached. destruct (map_get url c) as [e|]; [|done].
  destruct (now - timestamp e >? CACHE_TTL_MS)%Z; cbn [fst snd]; [|done].
  split; [by apply map_get_delete_ne|done].
Qed.

Lemma cache_read_isolated_witness :
  map_get (numbered_url 2)
    (getCached (numbered_url 1) 3600006 (entries_of (List.tl many_inserts))).2
  = map_get (numbered_url 2) (entries_of (List.tl many_inserts))
  /\ (forall r,
        (getCached (numbered_url 1) 3600006 (entries_of (List.tl many_inserts))).1 = Some r ->
        (getCached (numbered_url 1) 3600006 (entries_of (List.tl many_inserts))).2
        = entries_of (List.tl many_inserts)).
Proof.
  apply (cache_read_isolated (entries_of (List.tl many_inserts))
           (numbered_url 1) (numbered_url 2) 3600006).
  vm_compute. discriminate.
Defined.

(** ** The rate-limit table *)

(** X6: no client ever has more than ten timestamps on record: a call of
    [checkRateLimit] and a sweep both keep that bound. *)
Theorem rate_invariant (ip : jstring) (now : Z) (m : RateMap) :
  rate_ok m ->
  rate_ok (checkRateLimit ip now m).2 /\ rate_ok (sweep now m).
Proof.
  intros Hok. split.
  - unfold checkRateLimit. intros ip' ts'.
    destruct (m !! ip) as [ts|] eqn:Hm.
    + pose proof (Hok _ _ Hm) as Hts.
      pose proof (filter_length_le (in_window now) ts) as Hf.
      destruct (RATE_LIMIT_MAX <=? length (List.filter (in_window now) ts)) eqn:E;
        cbn [snd]; destruct (decide (ip = ip')) as [<-|Hne].
      * rewrite lookup_insert_eq. intros [= <-]. lia.
      * rewrite lookup_insert_ne by done. apply Hok.
      * rewrite lookup_insert_eq. intros [= <-]. apply Nat.leb_gt in E.
        rewrite length_app. cbn. lia.
      * rewrite lookup_insert_ne by done. apply Hok.
    + cbn [snd]. destruct (decide (ip = ip')) as [<-|Hne].
      * rewrite lookup_insert_eq. intros [= <-]. cbn. unfold RATE_LIMIT_MAX. lia.
      * rewrite lookup_insert_ne by done. apply Hok.
  - intros ip' ts'. unfold sweep. rewrite lookup_omap_Some. intros (ts & Hf & Hm).
    pose proof (Hok _ _ Hm) as Hts.
    pose proof (filter_length_le (in_window now) ts) as Hle.
    destruct (List.filter (in_window now) ts); [discriminate|]. injection Hf as <-. lia.
Qed.

Lemma rate_invariant_witness :
  rate_ok (checkRateLimit (js "203.0.113.7") 10 (rateLimitMap busy_state)).2
  /\ rate_ok (sweep 10 (rateLimitMap busy_state)).
Proof.
  apply (rate_invariant (js "203.0.113.7") 10 (rateLimitMap busy_state)).
  intros ip ts. unfold busy_state. cbn [rateLimitMap].
  destruct (decide (js "203.0.113.7" = ip)) as [<-|Hne].
  - rewrite lookup_insert_eq. intros [= <-]. vm_compute. lia.
  - rewrite lookup_insert_ne by done. rewrite lookup_empty. discriminate.
Defined.

(** X7: after any call the client has a record, which is not empty and holds
    only timestamps less than a window old, and the records of all other
    clients are untouched. *)
Theorem rate_after_call (ip : jstring) (now : Z) (m : RateMap) :
  (exists ts, (checkRateLimit ip now m).2 !! ip = Some ts /\ ts <> []
              /\ Forall (fun t => (now - t < RATE_LIMIT_WINDOW_MS)%Z) ts)
  /\ (forall other, other <> ip ->
        (checkRateLimit ip now m).2 !! other = m !! other).
Proof.
  assert (Hkept : forall ts, Forall (fun t => (now - t < RATE_LIMIT_WINDOW_MS)%Z)
                               (List.filter (in_window now) ts)).
  { intros ts. apply List.Forall_forall. intros t [_ Ht]%List.filter_In.
    unfold in_window in Ht. by apply Z.ltb_lt. }
  unfold checkRateLimit. destruct (m !! ip) as [ts|] eqn:Hm.
  - destruct (RATE_LIMIT_MAX <=? length (List.filter (in_window now) ts)) eqn:E; cbn [snd].
    + split; [|intros; by apply lookup_insert_ne].
      eexists. split; [apply lookup_insert_eq|]. split; [|apply Hkept].
      apply Nat.leb_le in E. unfold RATE_LIMIT_MAX in E. intros H. rewrite H in E. cbn in E. lia.
    + split; [|intros; by apply lookup_insert_ne].
      eexists. split; [apply lookup_insert_eq|]. split; [by destruct (List.filter _ _)|].
      apply Forall_app. split; [apply Hkept|]. constructor; [|constructor].
      unfold RATE_LIMIT_WINDOW_MS. lia.
  - cbn [snd]. split; [|intros; by apply lookup_insert_ne].
    eexists. split; [apply lookup_insert_eq|]. split; [done|].
    constructor; [|constructor]. unfold RATE_LIMIT_WINDOW_MS. lia.
Qed.

(** X8: the background sweep cannot be observed by a client: after a sweep at
    an earlier reading of the clock, a call gets the same answer and leaves the
    same record for the client as without the sweep. *)
Theorem sweep_unobservable (ip : jstring) (swept now : Z) (m : RateMap) :
  (swept <= now)%Z ->
  (checkRateLimit ip now (sweep swept m)).1 = (checkRateLimit ip now m).1
  /\ (checkRateLimit ip now (sweep swept m)).2 !! ip = (checkRateLimit ip now m).2 !! ip.
Proof.
  intros Hle. unfold checkRateLimit, sweep. rewrite lookup_omap.
  destruct (m !! ip) as [ts|]; cbn [option_bind mbind];
    [|cbn [fst snd]; by rewrite !lookup_insert_eq].
  assert (Hf : List.filter (in_window now) (List.filter (in_window swept) ts)
               = List.filter (in_window now) ts).
  { induction ts as [|t ts IH]; [done|]. cbn [List.filter].
    destruct (in_window swept t) eqn:Es, (in_window now t) eqn:En; cbn [List.filter];
      rewrite ?En, ?IH; try done.
    unfold in_window in *. apply Z.ltb_lt in En. apply Z.ltb_ge in Es. lia. }
  destruct (List.filter (in_window swept) ts) as [|t0 kept] eqn:Ek.
  - cbn [option_bind mbind]. cbn [List.filter] in Hf. rewrite <- Hf.
    cbn [length app]. replace (RATE_LIMIT_MAX <=? 0) with false by done.
    cbn [fst snd]. by rewrite !lookup_insert_eq.
  - cbn [option_bind mbind]. rewrite Hf.
    destruct (RATE_LIMIT_MAX <=? _); cbn [fst snd]; by rewrite !lookup_insert_eq.
Qed.

Lemma sweep_unobservable_witness :
  (checkRateLimit (js "203.0.113.7") 70000
     (sweep 65000 (<[js "203.0.113.7" := [0; 20000]%Z]> ∅))).1
  = (checkRateLimit (js "203.0.113.7") 70000 (<[js "203.0.113.7" := [0; 20000]%Z]> ∅)).1
  /\ (checkRateLimit (js "203.0.113.7") 70000
        (sweep 65000 (<[js "203.0.113.7" := [0; 20000]%Z]> ∅))).2 !! js "203.0.113.7"
     = (checkRateLimit (js "203.0.113.7") 70000
          (<[js "203.0.113.7" := [0; 20000]%Z]> ∅)).2 !! js "203.0.113.7".
Proof.
  apply (sweep_unobservable (js "203.0.113.7") 65000 70000). lia.
Defined.

(** ** The client key *)

(** X9: the key the rate limiter is called with is never the empty string:
    whatever the headers hold, an empty candidate is passed over, down to
    the literal [unknown]. *)
Theorem clientIp_nonempty (req : Request) : clientIp req <> [].
Proof.
  unfold clientIp, nonempty.
  destruct (option_map _ (x_forwarded_for req)) as [[|c l]|]; try done;
    destruct (x_real_ip req) as [[|c' l']|]; try done;
    destruct (remoteAddress req) as [[|c'' l'']|]; done.
Qed.

(** ** How the two validators compose *)

Lemma starts_with_split (p h : jstring) :
  starts_with p h = true -> h = p ++ drop (length p) h.
Proof.
  revert h. induction p as [|a p IH]; intros h; [done|].
  destruct h as [|b h]; [done|]. cbn [starts_with].
  intros [Hab%N.eqb_eq Hp]%andb_true_iff. subst b. cbn. f_equal. by apply IH.
Qed.

(** X10: the allowlist subsumes the host checks of [isUrlSafe]: a URL that
    [isDomainAllowed] accepts is refused by [isUrlSafe] only for its scheme or
    its credentials, never for its host (no allowlisted name, with or without
    [www.], is a loopback name, a dotted quad or a metadata host). *)
Theorem allowlisted_host_is_safe (URL_parse : jstring -> option URL) (s : jstring) (u : URL) :
  URL_parse s = Some u ->
  protocol u = js "https:" -> username u = [] -> password u = [] ->
  isDomainAllowed URL_parse s = true ->
  isUrlSafe URL_parse s = true.
Proof.
  intros Hu Hp Hn Hw Ha. apply isDomainAllowed_spec in Ha as (u' & Hu' & Hin).
  rewrite Hu in Hu'. injection Hu' as <-.
  unfold isUrlSafe. rewrite Hu, Hp, Hn, Hw. cbv zeta.
  change (negb (jstring_eqb (js "https:") (js "https:"))) with false.
  change (negb (jstring_eqb [] []) || negb (jstring_eqb [] [])) with false. cbv iota.
  remember (toLowerCase (hostname u)) as h eqn:Eh. clear Eh Hu Hp Hn Hw.
  unfold strip_www in Hin. destruct (starts_with (js "www.") h) eqn:Hs.
  - apply starts_with_split in Hs. change (length (js "www.")) with 4 in Hs.
    unfold ALLOWED_DOMAINS in Hin. cbn [List.map In] in Hin.
    repeat (destruct Hin as [Hin|Hin];
            [rewrite <- Hin in Hs; rewrite Hs; vm_compute; reflexivity|]).
    done.
  - unfold ALLOWED_DOMAINS in Hin. cbn [List.map In] in Hin.
    repeat (destruct Hin as [Hin|Hin]; [rewrite <- Hin; vm_compute; reflexivity|]).
    done.
Qed.

Lemma allowlisted_host_is_safe_witness :
  isUrlSafe plain_URL (js "https://www.bbcgoodfood.com/recipes/tea") = true.
Proof.
  apply (allowlisted_host_is_safe plain_URL (js "https://www.bbcgoodfood.com/recipes/tea")
           (mkURL (js "https:") [] [] (js "www.bbcgoodfood.com")));
    vm_compute; reflexivity.
Defined.

Lemma digit_head_neq (x : N) (rest name : jstring) :
  is_digit x = true ->
  match name with c :: _ => is_digit c = false | [] => True end ->
  jstring_eqb (x :: rest) name = false.
Proof.
  intros Hx Hn. apply jstring_eqb_neq. intros E. destruct name as [|c name]; [done|].
  injection E as -> _. congruence.
Qed.

(** X11: on dotted quads the private-range test is exact: an https URL
    without credentials whose host is a dotted quad is accepted by [isUrlSafe]
    if and only if the address lies in none of the six blocks (172.15.x.x and
    172.32.x.x pass, 172.16.x.x to 172.31.x.x do not). *)
Theorem isUrlSafe_dotted_quad (URL_parse : jstring -> option URL) (s : jstring) (u : URL)
        (da db dc dd : jstring) :
  URL_parse s = Some u ->
  protocol u = js "https:" -> username u = [] -> password u = [] ->
  octet_text da -> octet_text db -> octet_text dc -> octet_text dd ->
  hostname u = dotted_quad da db dc dd ->
  isUrlSafe URL_parse s
  = negb (in_blocked_range (ipv4 (digits_value da) (digits_value db)
                                 (digits_value dc) (digits_value dd))).
Proof.
  intros Hu Hp Hn Hw Oa Ob Oc Od Hh.
  unfold isUrlSafe. rewrite Hu, Hp, Hn, Hw, Hh. cbv zeta.
  change (negb (jstring_eqb (js "https:") (js "https:"))) with false.
  change (negb (jstring_eqb [] []) || negb (jstring_eqb [] [])) with false. cbv iota.
  rewrite toLowerCase_dotted_quad by done.
  destruct (exec_ipv4_dotted_quad da db dc dd Oa Ob Oc Od) as (j & cs & He & H1 & H2).
  rewrite (in_blocked_range_octets (digits_value da) (digits_value db)
             (digits_value dc) (digits_value dd)); [|apply Oa|apply Ob|apply Oc|apply Od].
  assert (Hhead : exists x rest, dotted_quad da db dc dd = x :: rest /\ is_digit x = true).
  { destruct Oa as ([Hl _] & Hd & _). destruct da as [|x da]; [cbn in Hl; lia|].
    cbn in Hd. apply andb_true_iff in Hd as [Hx _]. by exists x, (da ++ chr "." :: db ++ chr "." :: dc ++ chr "." :: dd). }
  destruct Hhead as (x & rest & Hq & Hx).
  destruct (jstring_eqb (dotted_quad da db dc dd) (js "0.0.0.0")) eqn:E0.
  - apply jstring_eqb_eq in E0. rewrite E0 in He, H1.
    vm_compute in He. injection He as <- <-. vm_compute in H1. subst da.
    rewrite orb_true_r. cbn [orb]. change (digits_value [48%N]) with 0%N.
    change (0 =? 127)%N with false. change (0 =? 10)%N with false.
    change (0 =? 172)%N with false. change (0 =? 192)%N with false.
    change (0 =? 169)%N with false. change (0 =? 0)%N with true. cbn [andb orb negb].
    reflexivity.
  - rewrite He, H1, H2. rewrite Hq.
    rewrite !(digit_head_neq x rest) by (done || reflexivity). cbn [orb].
    by destruct (_ || _ || _ || _ || _ || _)%bool.
Qed.

Lemma isUrlSafe_dotted_quad_witness :
  isUrlSafe plain_URL (js "https://172.32.0.1/tea")
  = negb (in_blocked_range (ipv4 (digits_value (js "172")) (digits_value (js "32"))
                                 (digits_value (js "0")) (digits_value (js "1")))).
Proof.
  apply (isUrlSafe_dotted_quad plain_URL (js "https://172.32.0.1/tea")
           (mkURL (js "https:") [] [] (js "172.32.0.1")));
    try reflexivity;
    (repeat split; try (vm_compute; lia); vm_compute; (reflexivity || discriminate)).
Defined.

(** ** The handler as a whole *)

Lemma isUrlSafe_true (URL_parse : jstring -> option URL) (s : jstring) :
  isUrlSafe URL_parse s = true ->
  exists u, URL_parse s = Some u /\ protocol u = js "https:"
            /\ username u = [] /\ password u = [].
Proof.
  unfold isUrlSafe. destruct (URL_parse s) as [u|]; [|done].
  destruct (negb (jstring_eqb (protocol u) (js "https:"))) eqn:E1; [done|].
  destruct (negb (jstring_eqb (username u) []) || negb (jstring_eqb (password u) []))
    eqn:E2; [done|].
  intros _. apply negb_false_iff, jstring_eqb_eq in E1.
  apply orb_false_iff in E2 as [E2u%negb_false_iff%jstring_eqb_eq E2p%negb_false_iff%jstring_eqb_eq].
  by exists u.
Qed.

(** X12: the handler reaches the fetch only for a POST whose URL parses, has
    the scheme https, carries no credentials and names an allowlisted host,
    from a client the rate limiter allowed, and only when the cache had no
    live entry for the URL. *)
Theorem fetch_only_validated (URL_parse : jstring -> option URL) (req : Request)
        (clk : Clock) (st st' : State) (url : jstring) :
  beforeFetch URL_parse req clk st = (inr (Fetch url), st') ->
  method req = js "POST" /\ body_url req = Some url
  /\ (exists u, URL_parse url = Some u /\ protocol u = js "https:"
                /\ username u = [] /\ password u = []
                /\ In (strip_www (toLowerCase (hostname u))) ALLOWED_DOMAINS)
  /\ (checkRateLimit (clientIp req) (t_rate clk) (rateLimitMap st)).1 = true
  /\ (getCached url (t_lookup clk) (recipeCache st)).1 = None.
Proof.
  unfold beforeFetch.
  destruct (jstring_eqb (method req) (js "OPTIONS")); [discriminate|].
  destruct (jstring_eqb (method req) (js "POST")) eqn:Em; cbn [negb]; [|discriminate].
  destruct (checkRateLimit (clientIp req) (t_rate clk) (rateLimitMap st))
    as [allowed rl] eqn:Hrl.
  destruct allowed; cbn [negb]; [|discriminate].
  unfold body_url. destruct (req_body req) as [|bu] eqn:Hrb; [discriminate|].
  destruct bu as [[|c0 url0]|] eqn:Hb; cbn [nonempty]; try discriminate.
  destruct (isUrlSafe URL_parse (c0 :: url0)) eqn:Hs; cbn [negb]; [|discriminate].
  destruct (isDomainAllowed URL_parse (c0 :: url0)) eqn:Hd; cbn [negb]; [|discriminate].
  cbn [recipeCache].
  destruct (getCached (c0 :: url0) (t_lookup clk) (recipeCache st)) as [[r|] c] eqn:Hc;
    [discriminate|].
  intros [= <- <-]. apply jstring_eqb_eq in Em.
  apply isUrlSafe_true in Hs as (u & Hu & Hp & Hn & Hw).
  apply isDomainAllowed_spec in Hd as (u' & Hu' & Hin). rewrite Hu in Hu'. injection Hu' as <-.
  repeat split; try done; [by exists u|by rewrite Hc].
Qed.

Lemma fetch_only_validated_witness :
  method (post_tea "203.0.113.7") = js "POST"
  /\ body_url (post_tea "203.0.113.7") = Some tea_url
  /\ (exists u, plain_URL tea_url = Some u /\ protocol u = js "https:"
                /\ username u = [] /\ password u = []
                /\ In (strip_www (toLowerCase (hostname u))) ALLOWED_DOMAINS)
  /\ (checkRateLimit (clientIp (post_tea "203.0.113.7")) (t_rate noon)
        (rateLimitMap empty_state)).1 = true
  /\ (getCached tea_url (t_lookup noon) (recipeCache empty_state)).1 = None.
Proof.
  apply (fetch_only_validated plain_URL (post_tea "203.0.113.7") noon empty_state
           (mkState [] (<[js "203.0.113.7" := [43200000%Z]]> ∅)) tea_url).
  vm_compute. reflexivity.
Defined.

(** X13: a recipe answered after a fetch is answered from the cache, without a
    fetch, to the next allowed POST of the same URL whose lookup comes at most
    the time to live after the store, whichever client sends it. *)
Theorem hit_after_miss (URL_parse : jstring -> option URL)
        (JSON_parse : jstring -> option value) (url : jstring) (net : Fetched)
        (clk1 clk2 : Clock) (st0 st1 : State) (resp : Response) (r : Recipe)
        (req2 : Request) :
  afterFetch URL_parse JSON_parse url net clk1 st0 = (resp, st1) ->
  body resp = RecipeBody r ->
  method req2 = js "POST" -> body_url req2 = Some url -> url <> [] ->
  isUrlSafe URL_parse url = true -> isDomainAllowed URL_parse url = true ->
  (checkRateLimit (clientIp req2) (t_rate clk2) (rateLimitMap st1)).1 = true ->
  (t_lookup clk2 - t_store clk1 <= CACHE_TTL_MS)%Z ->
  (beforeFetch URL_parse req2 clk2 st1).1
  = inl (mkResponse 200 (Some "HIT"%string) (RecipeBody r)).
Proof.
  intros Ha Hb Hm Hu Hne Hs Hd Hr Ht.
  destruct (afterFetch_recipe _ _ _ _ _ _ _ _ _ Ha Hb) as (_ & _ & Hget).
  unfold beforeFetch. rewrite Hm.
  change (jstring_eqb (js "POST") (js "OPTIONS")) with false.
  change (negb (jstring_eqb (js "POST") (js "POST"))) with false. cbv iota.
  destruct (checkRateLimit (clientIp req2) (t_rate clk2) (rateLimitMap st1))
    as [allowed rl]. cbn [fst] in Hr. subst allowed. cbn [negb].
  unfold body_url in Hu |- *. destruct (req_body req2) as [|bu]; [done|].
  rewrite Hu. destruct url as [|c0 url0]; [done|]. cbn [nonempty].
  rewrite Hs, Hd. cbn [negb recipeCache].
  unfold getCached. rewrite Hget. cbn [timestamp data].
  replace (t_lookup clk2 - t_store clk1 >? CACHE_TTL_MS)%Z with false; [done|].
  symmetry. rewrite Z.gtb_ltb. apply Z.ltb_ge. lia.
Qed.

Lemma hit_after_miss_witness :
  (beforeFetch plain_URL (post_tea "198.51.100.2") (mkClock 43201000 43201000 43201500)
     (mkState (setCache tea_url tea_recipe 43200500 [])
              (<[js "203.0.113.7" := [43200000%Z]]> ∅))).1
  = inl (mkResponse 200 (Some "HIT"%string) (RecipeBody tea_recipe)).
Proof.
  apply (hit_after_miss plain_URL tea_JSON tea_url (Page true tea_page) noon
           (mkClock 43201000 43201000 43201500)
           (mkState [] (<[js "203.0.113.7" := [43200000%Z]]> ∅))
           (mkState (setCache tea_url tea_recipe 43200500 [])
                    (<[js "203.0.113.7" := [43200000%Z]]> ∅))
           (mkResponse 200 (Some "MISS"%string) (RecipeBody tea_recipe)) tea_recipe
           (post_tea "198.51.100.2")).
  - vm_compute. reflexivity.
  - reflexivity.
  - reflexivity.
  - reflexivity.
  - discriminate.
  - vm_compute. reflexivity.
  - vm_compute. reflexivity.
  - reflexivity.
  - vm_compute. discriminate.
Defined.

(** X14: the handler gives no answer in exactly one case: a POST that the rate
    limiter allowed and whose [req.body] is missing, where reading [url] raises
    outside the [try] block after the slot has been consumed.  Every other
    request is answered with one of the statuses 200, 400, 404, 405, 429, 500,
    502 and 504; the cache header is set exactly on the answers that carry a
    recipe, and those have the status 200. *)
Theorem handler_answers (URL_parse : jstring -> option URL)
        (JSON_parse : jstring -> option value) (req : Request) (clk : Clock)
        (net : Fetched) (st : State) :
  ((handler URL_parse JSON_parse req clk net st).1 = None
   <-> method req = js "POST"
       /\ (checkRateLimit (clientIp req) (t_rate clk) (rateLimitMap st)).1 = true
       /\ req_body req = NoReqBody)
  /\ ((handler URL_parse JSON_parse req clk net st).1 = None ->
      (handler URL_parse JSON_parse req clk net st).2
      = mkState (recipeCache st)
                (checkRateLimit (clientIp req) (t_rate clk) (rateLimitMap st)).2)
  /\ (forall resp, (handler URL_parse JSON_parse req clk net st).1 = Some resp ->
        In (status resp) statuses
        /\ (x_cache resp <> None <-> exists r, body resp = RecipeBody r)
        /\ (forall r, body resp = RecipeBody r -> status resp = 200)).
Proof.
  assert (Hafter : forall url st1 resp st2,
            afterFetch URL_parse JSON_parse url net clk st1 = (resp, st2) ->
            In (status resp) statuses
            /\ (x_cache resp <> None <-> exists r, body resp = RecipeBody r)
            /\ (forall r, body resp = RecipeBody r -> status resp = 200)).
  { intros url st1 resp st2. unfold afterFetch, statuses, reject.
    repeat case_match; intros [= <- <-]; cbn [status x_cache body In];
      (split; [tauto|]); (split; [|by (intros; (done || discriminate))]);
      (split; [intros Hx; (by eauto) || (by exfalso; apply Hx)
              |intros [? ?]; (done || discriminate)]). }
  assert (Hrej : forall code msg,
            In code statuses -> code <> 200 ->
            In (status (reject code msg)) statuses
            /\ (x_cache (reject code msg) <> None
                <-> exists r, body (reject code msg) = RecipeBody r)
            /\ (forall r, body (reject code msg) = RecipeBody r ->
                  status (reject code msg) = 200)).
  { intros code msg Hin Hne. cbn. split; [done|]. split; [|done].
    split; [done|by intros [? ?]]. }
  unfold handler, beforeFetch.
  destruct (jstring_eqb (method req) (js "OPTIONS")) eqn:Eo.
  { cbn [fst snd]. apply jstring_eqb_eq in Eo. split; [|split; [done|]].
    - split; [done|]. intros (Hm & _). rewrite Hm in Eo. vm_compute in Eo. discriminate.
    - intros resp [= <-]. cbn. split; [tauto|]. split; [|done].
      split; [done|by intros [? ?]]. }
  destruct (jstring_eqb (method req) (js "POST")) eqn:Ep; cbn [negb].
  2:{ cbn [fst snd]. apply jstring_eqb_neq in Ep. split; [|split; [done|]].
      - split; [done|]. by intros (Hm & _).
      - intros resp [= <-]. apply Hrej; [cbn; tauto|done]. }
  apply jstring_eqb_eq in Ep.
  destruct (checkRateLimit (clientIp req) (t_rate clk) (rateLimitMap st))
    as [allowed rl] eqn:Hrl.
  destruct allowed; cbn [negb fst snd].
  2:{ split; [|split; [done|]].
      - split; [done|]. by intros (_ & ? & _).
      - intros resp [= <-]. apply Hrej; [cbn; tauto|done]. }
  destruct (req_body req) as [|bu] eqn:Hb.
  { cbn [fst snd]. split; [done|]. split; [done|]. done. }
  assert (Hno : forall P : Prop,
            (P <-> js "POST" = js "POST" /\ true = true /\ ReqBodyObj bu = NoReqBody)
            <-> ~ P) by (intros P; split; [intros [H _] HP; by destruct (H HP) as (_ & _ & ?)
                                        |intros HP; split; [done|by intros (_ & _ & ?)]]).
  rewrite Ep.
  destruct (nonempty (body_url req)) as [url|].
  2:{ cbn [fst snd]. split; [by apply Hno|]. split; [done|].
      intros resp [= <-]. apply Hrej; [cbn; tauto|done]. }
  destruct (negb (isUrlSafe URL_parse url)).
  { cbn [fst snd]. split; [by apply Hno|]. split; [done|].
    intros resp [= <-]. apply Hrej; [cbn; tauto|done]. }
  destruct (negb (isDomainAllowed URL_parse url)).
  { cbn [fst snd]. split; [by apply Hno|]. split; [done|].
    intros resp [= <-]. apply Hrej; [cbn; tauto|done]. }
  cbn [recipeCache].
  destruct (getCached url (t_lookup clk) (recipeCache st)) as [[r|] c].
  { cbn [fst snd]. split; [by apply Hno|]. split; [done|].
    intros resp [= <-]. cbn. split; [tauto|]. split; [|done]. split; [by eauto|done]. }
  destruct (afterFetch URL_parse JSON_parse url net clk (mkState c rl)) as [resp' st2] eqn:Ha.
  cbn [fst snd]. split; [by apply Hno|]. split; [done|].
  intros resp [= <-]. by eapply Hafter.
Qed.

(** A POST without a body from a client with free slots gets no answer and has
    used a slot. *)
Lemma handler_no_body :
  handler plain_URL tea_JSON
    (mkRequest (js "POST") (Some (js "203.0.113.7")) None None NoReqBody)
    noon FetchFailed empty_state
  = (None, mkState [] (<[js "203.0.113.7" := [43200000%Z]]> ∅)).
Proof. vm_compute. reflexivity. Qed.

(** X15: a request refused with 429 has recorded nothing and has not touched
    the cache: the client already had ten or more timestamps within the
    window, and its record afterwards is just those, the stale ones dropped. *)
Theorem rate_limited_request (URL_parse : jstring -> option URL) (req : Request)
        (clk : Clock) (st st' : State) (resp : Response) :
  beforeFetch URL_parse req clk st = (inl resp, st') ->
  status resp = 429 ->
  recipeCache st' = recipeCache st
  /\ exists ts,
       rateLimitMap st !! clientIp req = Some ts
       /\ RATE_LIMIT_MAX <= length (List.filter (in_window (t_rate clk)) ts)
       /\ rateLimitMap st'
          = <[clientIp req := List.filter (in_window (t_rate clk)) ts]> (rateLimitMap st).
Proof.
  unfold beforeFetch.
  destruct (jstring_eqb (method req) (js "OPTIONS")); [by intros [= <- <-]|].
  destruct (negb (jstring_eqb (method req) (js "POST"))); [by intros [= <- <-]|].
  unfold checkRateLimit.
  destruct (rateLimitMap st !! clientIp req) as [ts|] eqn:Hm.
  - destruct (RATE_LIMIT_MAX <=? length (List.filter (in_window (t_rate clk)) ts)) eqn:E.
    + cbn [negb]. intros [= <- <-] _. split; [done|]. exists ts.
      apply Nat.leb_le in E. done.
    + cbn [negb]. destruct (req_body req) as [|bu]; [discriminate|].
      destruct (nonempty (body_url req)) as [url|]; [|by intros [= <- <-]].
      destruct (negb (isUrlSafe URL_parse url)); [by intros [= <- <-]|].
      destruct (negb (isDomainAllowed URL_parse url)); [by intros [= <- <-]|].
      cbn [recipeCache].
      destruct (getCached url (t_lookup clk) (recipeCache st)) as [[r|] c]; [|discriminate].
      by intros [= <- <-].
  - cbn [negb]. destruct (req_body req) as [|bu]; [discriminate|].
    destruct (nonempty (body_url req)) as [url|]; [|by intros [= <- <-]].
    destruct (negb (isUrlSafe URL_parse url)); [by intros [= <- <-]|].
    destruct (negb (isDomainAllowed URL_parse url)); [by intros [= <- <-]|].
    cbn [recipeCache].
    destruct (getCached url (t_lookup clk) (recipeCache st)) as [[r|] c]; [|discriminate].
    by intros [= <- <-].
Qed.

Lemma rate_limited_request_witness :
  recipeCache busy_state = recipeCache busy_state
  /\ exists ts,
       rateLimitMap busy_state !! clientIp (post_tea "203.0.113.7") = Some ts
       /\ RATE_LIMIT_MAX <= length (List.filter (in_window (t_rate (mkClock 10 10 10))) ts)
       /\ rateLimitMap busy_state
          = <[clientIp (post_tea "203.0.113.7")
              := List.filter (in_window (t_rate (mkClock 10 10 10))) ts]>
              (rateLimitMap busy_state).
Proof.
  apply (rate_limited_request plain_URL (post_tea "203.0.113.7") (mkClock 10 10 10)
           busy_state busy_state
           (reject 429 "Too many requests. Please wait a minute before trying again.")).
  - vm_compute. reflexivity.
  - reflexivity.
Defined.

(** ** What is extracted *)

Lemma first_Recipe_typed (items : list value) (r : value) :
  first_Recipe items = Some r -> typed_Recipe r = true.
Proof. unfold first_Recipe. by intros [_ H]%List.find_some. Qed.

Lemma resolve_typed (cands : list value) (r : value) :
  resolve cands = Some r -> typed_Recipe r = true.
Proof.
  induction cands as [|cand rest IH]; [done|]. cbn [resolve].
  unfold candidate_Recipe, branch_a, branch_b, branch_c.
  destruct (typed_Recipe cand) eqn:Ht; [by intros [= <-]|].
  destruct cand as [| |b|x|str|items|fs]; try done.
  - destruct (first_Recipe items) eqn:Hf; [intros [= <-]; by eapply first_Recipe_typed|done].
  - destruct (field (js "@graph") fs) as [| |b|x|str|items|gs]; try done.
    destruct (first_Recipe items) eqn:Hf; [intros [= <-]; by eapply first_Recipe_typed|done].
Qed.

(** X16: whatever the candidates are, a value the resolution loop returns and
    the handler goes on with (a truthy one) is an object whose [@type] is the
    string [Recipe]: the field reads of the extraction never fail on it. *)
Theorem findRecipe_typed (cands : list value) (v : value) :
  findRecipe VNull cands = Ok v -> truthy v = true ->
  typed_Recipe v = true /\ exists fs, v = VObj fs /\ forall k, get v k = Ok (field (js k) fs).
Proof.
  intros Hf Ht. pose proof (findRecipe_resolve cands VNull eq_refl) as H.
  rewrite Hf in H. cbn [found] in H. rewrite Ht in H.
  destruct (scan_prefix_ok cands); [|discriminate]. injection H as H.
  symmetry in H. apply resolve_typed in H. split; [done|].
  destruct v; try done. by eexists.
Qed.

Lemma findRecipe_typed_witness :
  typed_Recipe (recipe_object "Soup") = true
  /\ exists fs, recipe_object "Soup" = VObj fs
                /\ forall k, get (recipe_object "Soup") k = Ok (field (js k) fs).
Proof.
  apply (findRecipe_typed [website_object; graph_wrapper [website_object; recipe_object "Soup"]]
           (recipe_object "Soup")); vm_compute; reflexivity.
Defined.

Lemma stepText_throw (step : value) :
  stepText step = Throw <-> readable step = false.
Proof.
  destruct step as [| |b|x|str|items|fs]; cbn [stepText get bind readable truthy]; try done.
  by destruct (truthy (field (js "text") fs)), (truthy (field (js "name") fs)).
Qed.

Lemma mapM_stepText_throw (steps : list value) :
  mapM stepText steps = Throw <-> existsb (fun s => negb (readable s)) steps = true.
Proof.
  induction steps as [|s steps IH]; cbn [mapM existsb]; [done|].
  pose proof (stepText_throw s) as Hs.
  destruct (stepText s) as [v|]; cbn [bind].
  - destruct (readable s); [|by destruct Hs as [_ Hs]; specialize (Hs eq_refl)].
    cbn [negb orb]. rewrite <- IH. by destruct (mapM stepText steps).
  - destruct Hs as [Hs _]. by rewrite (Hs eq_refl).
Qed.

Lemma extractIngredients_throw (fs : list (jstring * value)) :
  extractIngredients (VObj fs) = Throw
  <-> truthy (field (js "recipeIngredient") fs) = true
      /\ isArray (field (js "recipeIngredient") fs) = false.
Proof.
  unfold extractIngredients, or_else. cbn [get bind].
  destruct (field (js "recipeIngredient") fs) as [| |b|x|str|items|gs];
    cbn [truthy isArray];
    try destruct b; try destruct x; try destruct (negb (jstring_eqb str []));
    split; try done; by intros [? ?].
Qed.

Lemma extractInstructions_throw (fs : list (jstring * value)) :
  extractInstructions (VObj fs) = Throw
  <-> exists steps, field (js "recipeInstructions") fs = VArr steps
                    /\ existsb (fun s => negb (readable s)) steps = true.
Proof.
  unfold extractInstructions. cbn [get bind].
  destruct (field (js "recipeInstructions") fs) as [| |b|x|str|steps|gs];
    cbn [truthy];
    try destruct b; try destruct x; try destruct (negb (jstring_eqb str []));
    try (split; [done|by intros (? & ? & ?)]).
  pose proof (mapM_stepText_throw steps) as Hm.
  destruct (mapM stepText steps) as [l|]; cbn [bind].
  - split; [done|]. intros (st0 & [= <-] & Hx). apply Hm in Hx. discriminate.
  - split; [|done]. intros _. exists steps. split; [done|]. by apply Hm.
Qed.

Lemma extractImage_ok (fs : list (jstring * value)) :
  exists img, extractImage (VObj fs) = Ok img.
Proof.
  unfold extractImage. cbn [get bind].
  destruct (field (js "image") fs) as [| |b|x|str|items|gs]; cbn [truthy get bind];
    try destruct b; try destruct x; try destruct (negb (jstring_eqb str []));
    cbn [get bind]; eauto.
Qed.

(** X17: on a Recipe object the extraction raises a [TypeError] in exactly two
    cases: [recipeIngredient] is truthy but not an array, or
    [recipeInstructions] is an array with a [null] element.  Nothing else in
    the object makes it fail. *)
Theorem extractFields_throws (fs : list (jstring * value)) :
  extractFields (VObj fs) = Throw
  <-> (truthy (field (js "recipeIngredient") fs) = true
       /\ isArray (field (js "recipeIngredient") fs) = false)
      \/ (exists steps, field (js "recipeInstructions") fs = VArr steps
                        /\ existsb (fun s => negb (readable s)) steps = true).
Proof.
  rewrite <- extractIngredients_throw, <- extractInstructions_throw.
  unfold extractFields. cbn [get bind].
  destruct (extractImage_ok fs) as [img ->].
  destruct (extractIngredients (VObj fs)) as [ing|]; cbn [bind]; [|by split; [left|]].
  destruct (extractInstructions (VObj fs)) as [ins|]; cbn [bind]; [|by split; [right|]].
  split; [done|]. by intros [?|?].
Qed.

Lemma extractFields_throws_example :
  extractFields (VObj [ (js "@type", VStr (js "Recipe"));
                        (js "recipeIngredient", VStr (js "flour, water")) ]) = Throw
  /\ extractFields (VObj [ (js "@type", VStr (js "Recipe"));
                           (js "recipeInstructions", VArr [VStr (js "Mix"); VNull]) ]) = Throw.
Proof. split; reflexivity. Qed.

(** X18: what comes out of a successful extraction: the name is never falsy
    (the placeholder stands in), every ingredient is a string, one for each
    element of [recipeIngredient], no instruction is falsy, and [servings],
    [prepTime] and [cookTime] are null or truthy (an empty string, 0 or false
    in the source is reported as null). *)
Theorem extractFields_shape (recipe : value) (r0 : Recipe) :
  extractFields recipe = Ok r0 ->
  truthy (name r0) = true
  /\ Forall (fun v => isString v = true) (ingredients r0)
  /\ (forall items, get recipe "recipeIngredient" = Ok (VArr items) ->
        length (ingredients r0) = length items)
  /\ Forall (fun v => truthy v = true) (instructions r0)
  /\ Forall (fun v => v = VNull \/ truthy v = true)
            [servings r0; prepTime r0; cookTime r0].
Proof.
  unfold extractFields.
  destruct (get recipe "name") as [n|]; cbn [bind]; [|done].
  destruct (get recipe "description") as [d|]; cbn [bind]; [|done].
  destruct (extractIngredients recipe) as [ing|] eqn:Hing; cbn [bind]; [|done].
  destruct (get recipe "recipeYield") as [y|]; cbn [bind]; [|done].
  destruct (get recipe "prepTime") as [p|]; cbn [bind]; [|done].
  destruct (get recipe "cookTime") as [c|]; cbn [bind]; [|done].
  destruct (extractInstructions recipe) as [ins|] eqn:Hins; cbn [bind]; [|done].
  destruct (extractImage recipe) as [img|]; cbn [bind]; [|done].
  intros [= <-]. cbn [name ingredients instructions servings prepTime cookTime].
  assert (Hor : forall v, or_else v VNull = VNull \/ truthy (or_else v VNull) = true).
  { intros v. unfold or_else. destruct (truthy v) eqn:E; [by right|by left]. }
  split; [unfold or_else; by destruct (truthy n) eqn:E|].
  unfold extractIngredients in Hing.
  destruct (get recipe "recipeIngredient") as [ri|]; cbn [bind] in Hing; [|done].
  split; [|split; [|split]].
  - destruct (or_else ri (VArr [])); try done. injection Hing as <-.
    apply List.Forall_forall. intros v (i & <- & _)%List.in_map_iff. by destruct i.
  - intros items [= ->]. cbn in Hing. injection Hing as <-. by rewrite length_map.
  - unfold extractInstructions in Hins.
    destruct (get recipe "recipeInstructions") as [ri'|]; cbn [bind] in Hins; [|done].
    destruct (truthy ri') eqn:Et; [|injection Hins as <-; constructor].
    destruct ri'; try (injection Hins as <-; by repeat constructor).
    destruct (mapM stepText items) as [l|]; cbn [bind] in Hins; [|done].
    injection Hins as <-. apply List.Forall_forall. by intros v [_ Hv]%List.filter_In.
  - constructor; [apply Hor|constructor; [apply Hor|constructor; [apply Hor|constructor]]].
Qed.

Lemma extractFields_shape_witness :
  truthy (name tea_recipe) = true
  /\ Forall (fun v => isString v = true) (ingredients tea_recipe)
  /\ (forall items, get tea_object "recipeIngredient" = Ok (VArr items) ->
        length (ingredients tea_recipe) = length items)
  /\ Forall (fun v => truthy v = true) (instructions tea_recipe)
  /\ Forall (fun v => v = VNull \/ truthy v = true)
            [servings tea_recipe; prepTime tea_recipe; cookTime tea_recipe].
Proof.
  apply (extractFields_shape tea_object tea_recipe). reflexivity.
Defined.

Lemma mapM_trim_strings (items : list value) (l : list value) :
  mapM (fun i => match i with VStr s => Ok (VStr (trim s)) | _ => Throw end) items = Ok l ->
  l = List.map (fun i => match i with VStr s => VStr (trim s) | _ => VStr [] end) items
  /\ Forall (fun v => isString v = true) items.
Proof.
  revert l. induction items as [|i items IH]; intros l; cbn [mapM List.map].
  - intros [= <-]. by split.
  - destruct i; cbn [bind]; try done.
    destruct (mapM _ items) as [l'|]; cbn [bind]; [|done]. intros [= <-].
    destruct (IH l' eq_refl) as [-> Hf]. split; [done|by constructor].
Qed.

(** X19: the two variants extract the same fields whenever the earlier one
    extracts at all: it raises a [TypeError] on an ingredient that is not a
    string, where the later one reports an empty string, and apart from that
    nothing differs.  What the later variant answers is then the earlier
    variant's recipe with the image validated and the text fields sanitised. *)
Theorem variants_extract_alike (URL_parse : jstring -> option URL) (recipe : value)
        (r2 : Recipe) :
  extractFields2 recipe = Ok r2 ->
  extractFields recipe = Ok r2
  /\ buildResult URL_parse recipe
     = Ok (sanitizeRecipe
             {| name := name r2; description := description r2;
                ingredients := ingredients r2; instructions := instructions r2;
                servings := servings r2; prepTime := prepTime r2; cookTime := cookTime r2;
                image := validateImage URL_parse (image r2) |}).
Proof.
  intros H2.
  assert (H1 : extractFields recipe = Ok r2).
  { revert H2. unfold extractFields2, extractFields, extractIngredients2, extractIngredients.
    destruct (get recipe "name") as [n|]; cbn [bind]; [|done].
    destruct (get recipe "description") as [d|]; cbn [bind]; [|done].
    destruct (get recipe "recipeIngredient") as [ri|]; cbn [bind]; [|done].
    destruct (or_else ri (VArr [])); cbn [bind]; try done.
    destruct (mapM _ items) as [l|] eqn:Hm; cbn [bind]; [|done].
    apply mapM_trim_strings in Hm as [-> _]. done. }
  split; [done|]. unfold buildResult. rewrite H1. reflexivity.
Qed.

Lemma variants_extract_alike_witness :
  extractFields tea_object = Ok tea_recipe
  /\ buildResult plain_URL tea_object
     = Ok (sanitizeRecipe
             {| name := name tea_recipe; description := description tea_recipe;
                ingredients := ingredients tea_recipe;
                instructions := instructions tea_recipe;
                servings := servings tea_recipe; prepTime := prepTime tea_recipe;
                cookTime := cookTime tea_recipe;
                image := validateImage plain_URL (image tea_recipe) |}).
Proof.
  apply (variants_extract_alike plain_URL tea_object tea_recipe). reflexivity.
Defined.

(** The variants do differ on an ingredient that is not a string. *)
Lemma variants_differ :
  extractFields2 odd_object = Throw
  /\ exists r, extractFields odd_object = Ok r
               /\ ingredients r = [VStr (js "Water"); VStr []].
Proof. split; [reflexivity|]. eexists. split; reflexivity. Qed.

(** X20: recipe text without [<] and [=] passes the sanitiser unchanged: on a
    recipe whose name, description, ingredients and instructions hold neither
    character, [sanitizeRecipe] is the identity. *)
Theorem sanitizeRecipe_plain (r : Recipe) :
  plain_recipe r = true -> sanitizeRecipe r = r.
Proof.
  destruct r as [n d ing ins sv pt ct img]. unfold plain_recipe, sanitizeRecipe. cbn.
  intros [[[Hn Hd]%andb_true_iff Hing]%andb_true_iff Hins]%andb_true_iff.
  rewrite !map_sanitizeText_plain, !sanitizeText_plain by done.
  by destruct (truthy n), (truthy d).
Qed.

Lemma sanitizeRecipe_plain_witness : sanitizeRecipe tea_recipe = tea_recipe.
Proof. apply (sanitizeRecipe_plain tea_recipe). vm_compute. reflexivity. Defined.

(** X21: only a recipe is ever cached: whatever the fetch gave, the part of the
    handler after it never touches the rate-limit table, leaves the cache as
    it is on every answer other than 200, and on 200 stores exactly the
    recipe it answers with, under the URL and with the reading of the clock. *)
Theorem failures_not_cached (URL_parse : jstring -> option URL)
        (JSON_parse : jstring -> option value) (url : jstring) (net : Fetched)
        (clk : Clock) (st st' : State) (resp : Response) :
  afterFetch URL_parse JSON_parse url net clk st = (resp, st') ->
  rateLimitMap st' = rateLimitMap st
  /\ (status resp <> 200 -> st' = st)
  /\ (status resp = 200 ->
      exists r, body resp = RecipeBody r
                /\ recipeCache st' = setCache url r (t_store clk) (recipeCache st)).
Proof.
  unfold afterFetch, reject.
  destruct net as [ok html| |]; try (by intros [= <- <-]).
  destruct (negb ok); [by intros [= <- <-]|].
  destruct (_ <? _)%Z; [by intros [= <- <-]|].
  destruct (findRecipe VNull _) as [recipe|]; [|by intros [= <- <-]].
  destruct (negb (truthy recipe)); [by intros [= <- <-]|].
  destruct (buildResult URL_parse recipe) as [result|]; [|by intros [= <- <-]].
  intros [= <- <-]. cbn [status body recipeCache rateLimitMap].
  split; [done|]. split; [done|]. intros _. by exists result.
Qed.

Lemma failures_not_cached_witness :
  rateLimitMap empty_state = rateLimitMap empty_state
  /\ (status (reject 404 "No recipe found on this page") <> 200 -> empty_state = empty_state)
  /\ (status (reject 404 "No recipe found on this page") = 200 ->
      exists r, body (reject 404 "No recipe found on this page") = RecipeBody r
                /\ recipeCache empty_state
                   = setCache tea_url r (t_store noon) (recipeCache empty_state)).
Proof.
  apply (failures_not_cached plain_URL tea_JSON tea_url
           (Page true (js "<html><body>No recipe here</body></html>")) noon
           empty_state empty_state (reject 404 "No recipe found on this page")).
  vm_compute. reflexivity.
Defined.
